(** * CompliantVault and its Chainalysis checker script

    A shallow embedding of [contracts/CompliantVault.sol] (the ledger, the
    pending-request registry, the dispatcher and the reconciler) and of
    [chainalysis.js] (the verification checker run by the oracle network),
    followed by the properties the specification states about them.

    Conventions.
    - [uint256], [address] and [bytes32] values are integers ([Z]); the range
      of a [uint256] is written out where the compiler checks it (Solidity
      ^0.8 reverts on overflow and underflow).
    - A Solidity [mapping] is a finite map read with the type's zero value
      as default.
    - A contract function is a computation in the monad [Tx]: it threads the
      contract's storage and ether, accumulates the effects that leave the
      contract (events, ether transfers, oracle requests) and may revert.
    - A transaction ([transact]) commits the result of such a computation or,
      on revert, leaves the state exactly as it was.
    - The owner-only configuration of the contract (script source, secrets,
      subscription, gas limit, oracle address) has no part in the properties
      below and is left out; an oracle request is represented by the
      arguments the contract builds for it and by the identifier the oracle
      answers with. *)

From Stdlib Require Import ZArith List Lia Bool String Ascii.
From stdpp Require Import base option gmap list strings fin_maps.

Local Open Scope Z_scope.

(** ** Solidity value types *)

Abbreviation uint256 := Z (only parsing).
Abbreviation address := Z (only parsing).
Abbreviation bytes32 := Z (only parsing).
Abbreviation bytes := (list Byte.byte) (only parsing).

Definition MAX_UINT256 : Z := 2 ^ 256 - 1.

(** [address(0)] *)
Definition address_zero : address := 0.

(** Checked arithmetic of Solidity ^0.8: [a + b] and [a - b] on [uint256]
    give no value (the transaction panics) when the result leaves the type. *)
Definition checked_add (a b : uint256) : option uint256 :=
  if decide (a + b ≤ MAX_UINT256) then Some (a + b) else None.

Definition checked_sub (a b : uint256) : option uint256 :=
  if decide (b ≤ a) then Some (a - b) else None.

(** Big-endian value of a byte string. *)
Definition be_value (bs : bytes) : Z :=
  fold_left (λ acc b, acc * 256 + Z.of_N (Byte.to_N b)) bs 0.

(** [bytes32(b)] for [b : bytes memory]: the first 32 bytes, padded with
    zero bytes on the right when [b] is shorter. *)
Definition bytes32_of_bytes (b : bytes) : bytes :=
  take 32 (b ++ replicate 32 Byte.x00).

(** [uint256(bytes32(response))] *)
Definition uint256_of_response (response : bytes) : uint256 :=
  be_value (bytes32_of_bytes response).

(** ** Contract types *)

Inductive RequestType := Deposit | Withdrawal.

Record PendingRequest := mkPendingRequest {
  requester : address;
  amount : uint256;
  requestType : RequestType
}.

(** The value a [mapping(bytes32 => PendingRequest)] holds at a key that was
    never written or was deleted. *)
Definition zero_request : PendingRequest := mkPendingRequest address_zero 0 Deposit.

Inductive Event :=
| DepositRequest (requestId : bytes32) (requester : address) (amount : uint256)
| WithdrawalRequest (requestId : bytes32) (requester : address) (amount : uint256)
| DepositRequestFulfilled (requestId : bytes32) (requester : address) (amount : uint256)
| WithdrawalRequestFulfilled (requestId : bytes32) (requester : address) (amount : uint256)
| DepositRequestCancelled (requestId : bytes32) (requester : address) (amount : uint256)
| WithdrawalRequestCancelled (requestId : bytes32) (requester : address) (amount : uint256)
| RequestFailed (message : bytes)
| UnknownRequestType
| NoPendingRequest.

Inductive Error :=
| ZeroAmount
| InsufficientBalance
| ArithmeticPanic      (* Panic(0x11): checked arithmetic left the type *)
| TransferFailed.      (* [transfer] could not deliver the ether *)

(** An argument of the oracle request, as the contract builds it. *)
Inductive Arg :=
| ArgLiteral (s : string)
| ArgHexAddress (a : address)   (* [Strings.toHexString(a)] *)
| ArgDecimal (n : uint256).     (* [Strings.toString(n)] *)

Definition DEPOSIT_ACTION_ID : string := "0".
Definition WITHDRAWAL_ACTION_ID : string := "1".

(** What a call makes visible outside the contract, in program order. *)
Inductive Effect :=
| Emit (e : Event)
| Transfer (to : address) (value : uint256)
| OracleRequest (args : list Arg) (requestId : bytes32).

(** Storage of the contract ([s_balances], [s_pending]) and the ether it
    holds ([address(this).balance]). *)
Record Vault := mkVault {
  s_balances : gmap Z Z;
  s_pending : gmap Z PendingRequest;
  this_balance : uint256
}.

Definition initial : Vault := mkVault ∅ ∅ 0.

(** ** The transaction monad *)

Inductive Result (A : Type) :=
| Ok (a : A) (st : Vault) (log : list Effect)
| Revert (e : Error).
Arguments Ok {A} a st log.
Arguments Revert {A} e.

Definition Tx (A : Type) : Type := Vault → Result A.

#[global] Instance Tx_ret : MRet Tx := λ A a st, Ok a st [].

#[global] Instance Tx_bind : MBind Tx := λ A B f m st,
  match m st with
  | Ok a st1 log1 =>
      match f a st1 with
      | Ok b st2 log2 => Ok b st2 (log1 ++ log2)
      | Revert e => Revert e
      end
  | Revert e => Revert e
  end.

Definition revert {A} (e : Error) : Tx A := λ _, Revert e.

Definition emit (e : Event) : Tx unit := λ st, Ok tt st [Emit e].

(** [s_balances[user]] *)
Definition balance (st : Vault) (user : address) : uint256 :=
  default 0 (s_balances st !! user).

Definition read_balance (user : address) : Tx uint256 :=
  λ st, Ok (balance st user) st [].

Definition write_balance (user : address) (v : uint256) : Tx unit :=
  λ st, Ok tt (mkVault (<[user := v]> (s_balances st)) (s_pending st) (this_balance st)) [].

(** [s_pending[requestId]] *)
Definition pending (st : Vault) (requestId : bytes32) : PendingRequest :=
  default zero_request (s_pending st !! requestId).

Definition read_pending (requestId : bytes32) : Tx PendingRequest :=
  λ st, Ok (pending st requestId) st [].

Definition write_pending (requestId : bytes32) (r : PendingRequest) : Tx unit :=
  λ st, Ok tt (mkVault (s_balances st) (<[requestId := r]> (s_pending st)) (this_balance st)) [].

Definition delete_pending (requestId : bytes32) : Tx unit :=
  λ st, Ok tt (mkVault (s_balances st) (delete requestId (s_pending st)) (this_balance st)) [].

(** Unwrap checked arithmetic inside a transaction. *)
Definition checked (o : option uint256) : Tx uint256 :=
  match o with
  | Some v => mret v
  | None => revert ArithmeticPanic
  end.

Section Contract.

(** The environment of the contract: whether an account takes ether sent
    with [transfer] (an externally owned account always does; a contract
    does only if it has a receive function that runs within the stipend). *)
Variable accepts : address → bool.

(** [payable(to).transfer(value)]: reverts when the contract holds less
    than [value] or the recipient does not take it. *)
Definition transfer (to : address) (value : uint256) : Tx unit :=
  λ st,
    if decide (value ≤ this_balance st) then
      if accepts to then
        Ok tt (mkVault (s_balances st) (s_pending st) (this_balance st - value))
           [Transfer to value]
      else Revert TransferFailed
    else Revert TransferFailed.

(** [executeRequest]: builds the request and hands it to the oracle, which
    answers with the request identifier [assigned]. *)
Definition executeRequest (args : list Arg) (assigned : bytes32) : Tx bytes32 :=
  λ st, Ok assigned st [OracleRequest args assigned].

Definition requestDeposit (msg_sender : address) (msg_value : uint256)
    (assigned : bytes32) : Tx unit :=
  if decide (msg_value = 0) then revert ZeroAmount
  else
    requestId ← executeRequest
      [ArgLiteral DEPOSIT_ACTION_ID; ArgHexAddress msg_sender] assigned;
    write_pending requestId (mkPendingRequest msg_sender msg_value Deposit);;
    emit (DepositRequest requestId msg_sender msg_value).

Definition requestWithdrawal (msg_sender : address) (amount : uint256)
    (assigned : bytes32) : Tx unit :=
  if decide (amount = 0) then revert ZeroAmount
  else
    bal ← read_balance msg_sender;
    if decide (amount > bal) then revert InsufficientBalance
    else
      requestId ← executeRequest
        [ArgLiteral WITHDRAWAL_ACTION_ID; ArgHexAddress msg_sender; ArgDecimal amount]
        assigned;
      write_pending requestId (mkPendingRequest msg_sender amount Withdrawal);;
      emit (WithdrawalRequest requestId msg_sender amount).

Definition balanceOf (st : Vault) (user : address) : uint256 := balance st user.

(** [s_balances[user] += amount] *)
Definition executeDeposit (user : address) (amount : uint256) : Tx unit :=
  bal ← read_balance user;
  v ← checked (checked_add bal amount);
  write_balance user v.

(** [s_balances[user] -= amount; payable(user).transfer(amount)] *)
Definition executeWithdraw (user : address) (amount : uint256) : Tx unit :=
  bal ← read_balance user;
  v ← checked (checked_sub bal amount);
  write_balance user v;;
  transfer user amount.

(** The callback.  The source's last branch ([emit UnknownRequestType()])
    is taken for a request type that is neither [Deposit] nor [Withdrawal];
    the enumeration has no such value, so the match below has no case for it. *)
Definition fulfillRequest (requestId : bytes32) (response err : bytes) : Tx unit :=
  request ← read_pending requestId;
  if decide (requester request = address_zero) then emit NoPendingRequest
  else
    delete_pending requestId;;
    if decide (0 < length err)%nat then emit (RequestFailed err)
    else
      match requestType request with
      | Deposit =>
          if decide (uint256_of_response response = 1) then
            executeDeposit (requester request) (amount request);;
            emit (DepositRequestFulfilled requestId (requester request) (amount request))
          else
            transfer (requester request) (amount request);;
            emit (DepositRequestCancelled requestId (requester request) (amount request))
      | Withdrawal =>
          if decide (uint256_of_response response = 1) then
            executeWithdraw (requester request) (amount request);;
            emit (WithdrawalRequestFulfilled requestId (requester request) (amount request))
          else
            emit (WithdrawalRequestCancelled requestId (requester request) (amount request))
      end.

(** ** Transactions *)

Inductive Receipt :=
| Success (log : list Effect)
| Reverted (e : Error).

(** The ether sent with a call is the contract's before the body runs. *)
Definition receive_value (msg_value : uint256) (st : Vault) : Vault :=
  mkVault (s_balances st) (s_pending st) (this_balance st + msg_value).

(** A transaction commits or leaves the state untouched. *)
Definition transact (msg_value : uint256) (body : Tx unit) (st : Vault)
    : Vault * Receipt :=
  match body (receive_value msg_value st) with
  | Ok _ st' log => (st', Success log)
  | Revert e => (st, Reverted e)
  end.

(** The calls that reach the core: the two dispatch entry points, called
    by any account, and the callback, called by the oracle. *)
Inductive Call :=
| CallRequestDeposit (msg_sender : address) (msg_value : uint256) (assigned : bytes32)
| CallRequestWithdrawal (msg_sender : address) (amount : uint256) (assigned : bytes32)
| CallFulfill (requestId : bytes32) (response err : bytes).

Definition exec (st : Vault) (c : Call) : Vault * Receipt :=
  match c with
  | CallRequestDeposit sender value assigned =>
      transact value (requestDeposit sender value assigned) st
  | CallRequestWithdrawal sender amount assigned =>
      transact 0 (requestWithdrawal sender amount assigned) st
  | CallFulfill requestId response err =>
      transact 0 (fulfillRequest requestId response err) st
  end.

(** What the platform guarantees of a call: the caller is not the zero
    address, a [uint256] argument is in range, and the ether of an account
    stays within [uint256] (the total supply does). *)
Definition wf_call (st : Vault) (c : Call) : Prop :=
  match c with
  | CallRequestDeposit sender value _ =>
      sender ≠ address_zero ∧ 0 ≤ value ∧ this_balance st + value ≤ MAX_UINT256
  | CallRequestWithdrawal sender amount _ =>
      sender ≠ address_zero ∧ 0 ≤ amount ≤ MAX_UINT256
  | CallFulfill _ _ _ => True
  end.

Inductive reachable : Vault → Prop :=
| reachable_initial : reachable initial
| reachable_exec st c :
    reachable st → wf_call st c → reachable (exec st c).1.

(** The state after a sequence of calls, reverted ones included. *)
Definition run (st : Vault) (cs : list Call) : Vault :=
  fold_left (λ st c, (exec st c).1) cs st.

(** ** Observations on calls and events *)

(** The terminal states of a request in the reconciler's state machine. *)
Inductive Outcome := Approved | Rejected | Errored | Unknown.

Definition outcome_of_event (e : Event) : option Outcome :=
  match e with
  | DepositRequestFulfilled _ _ _ | WithdrawalRequestFulfilled _ _ _ => Some Approved
  | DepositRequestCancelled _ _ _ | WithdrawalRequestCancelled _ _ _ => Some Rejected
  | RequestFailed _ => Some Errored
  | NoPendingRequest => Some Unknown
  | DepositRequest _ _ _ | WithdrawalRequest _ _ _ | UnknownRequestType => None
  end.

(** Does a log record an approved, rejected or errored effect? *)
Definition records_effect (log : list Effect) : bool :=
  existsb (λ x,
    match x with
    | Emit e =>
        match outcome_of_event e with
        | Some Approved | Some Rejected | Some Errored => true
        | _ => false
        end
    | _ => false
    end) log.

(** Is the call a callback for [requestId] that committed with an effect? *)
Definition applies_effect (requestId : bytes32) (c : Call) (r : Receipt) : bool :=
  match c, r with
  | CallFulfill id _ _, Success log => bool_decide (id = requestId) && records_effect log
  | _, _ => false
  end.

(** Number of effects applied for [requestId] along a sequence of calls. *)
Fixpoint effects_applied (requestId : bytes32) (st : Vault) (cs : list Call) : nat :=
  match cs with
  | [] => 0
  | c :: cs' =>
      ((if applies_effect requestId c (exec st c).2 then 1 else 0)
       + effects_applied requestId (exec st c).1 cs')%nat
  end.

(** The identifier a call registers, if it is a dispatch that commits. *)
Definition assigned_id (c : Call) (r : Receipt) : option bytes32 :=
  match c, r with
  | CallRequestDeposit _ _ assigned, Success _ => Some assigned
  | CallRequestWithdrawal _ _ assigned, Success _ => Some assigned
  | _, _ => None
  end.

(** Identifiers the oracle handed out along a sequence of calls. *)
Fixpoint assigned_ids (st : Vault) (cs : list Call) : list bytes32 :=
  match cs with
  | [] => []
  | c :: cs' =>
      match assigned_id c (exec st c).2 with
      | Some id => id :: assigned_ids (exec st c).1 cs'
      | None => assigned_ids (exec st c).1 cs'
      end
  end.

(** The state with the entry of [requestId] retired and nothing else
    touched. *)
Definition retire (requestId : bytes32) (st : Vault) : Vault :=
  mkVault (s_balances st) (delete requestId (s_pending st)) (this_balance st).

(** Well-formedness of each call of a sequence, at the state it runs in. *)
Fixpoint wf_calls (st : Vault) (cs : list Call) : Prop :=
  match cs with
  | [] => True
  | c :: cs' => wf_call st c ∧ wf_calls (exec st c).1 cs'
  end.

(** The callbacks that cannot complete: an approval of a withdrawal that
    the requester's balance no longer covers, and a payout (approved
    withdrawal or refused deposit) to a requester that does not take it. *)
Definition cannot_settle (st : Vault) (requestId : bytes32) (response err : bytes)
    : Prop :=
  ∃ r, s_pending st !! requestId = Some r ∧ err = []
    ∧ ((requestType r = Withdrawal ∧ uint256_of_response response = 1
        ∧ (amount r > balance st (requester r) ∨ accepts (requester r) = false))
       ∨ (requestType r = Deposit ∧ uint256_of_response response ≠ 1
          ∧ accepts (requester r) = false)).

(** The request a call is about: identifier, principal and amount. *)
Definition subject (st : Vault) (c : Call) : bytes32 * address * uint256 :=
  match c with
  | CallRequestDeposit sender value assigned => (assigned, sender, value)
  | CallRequestWithdrawal sender amount assigned => (assigned, sender, amount)
  | CallFulfill requestId _ _ =>
      (requestId, requester (pending st requestId), amount (pending st requestId))
  end.

End Contract.

(** The fields an event is declared with. *)
Definition event_requestId (e : Event) : option bytes32 :=
  match e with
  | DepositRequest id _ _ | WithdrawalRequest id _ _
  | DepositRequestFulfilled id _ _ | WithdrawalRequestFulfilled id _ _
  | DepositRequestCancelled id _ _ | WithdrawalRequestCancelled id _ _ => Some id
  | RequestFailed _ | UnknownRequestType | NoPendingRequest => None
  end.

Definition event_requester (e : Event) : option address :=
  match e with
  | DepositRequest _ who _ | WithdrawalRequest _ who _
  | DepositRequestFulfilled _ who _ | WithdrawalRequestFulfilled _ who _
  | DepositRequestCancelled _ who _ | WithdrawalRequestCancelled _ who _ => Some who
  | RequestFailed _ | UnknownRequestType | NoPendingRequest => None
  end.

Definition event_amount (e : Event) : option uint256 :=
  match e with
  | DepositRequest _ _ a | WithdrawalRequest _ _ a
  | DepositRequestFulfilled _ _ a | WithdrawalRequestFulfilled _ _ a
  | DepositRequestCancelled _ _ a | WithdrawalRequestCancelled _ _ a => Some a
  | RequestFailed _ | UnknownRequestType | NoPendingRequest => None
  end.

(** An event carries a request's identifier, principal and amount. *)
Definition carries (e : Event) (x : bytes32 * address * uint256) : Prop :=
  event_requestId e = Some x.1.1 ∧ event_requester e = Some x.1.2
  ∧ event_amount e = Some x.2.

(** Sum of the image of a finite map. *)
Definition map_total {V} (f : V → Z) (m : gmap Z V) : Z :=
  map_fold (λ _ v acc, f v + acc) 0 m.

(** Ether a pending request keeps in escrow: a deposit's value; a
    withdrawal's amount is still counted in the balance. *)
Definition escrow_of (r : PendingRequest) : Z :=
  match requestType r with
  | Deposit => amount r
  | Withdrawal => 0
  end.

Definition total_balances (st : Vault) : Z := map_total id (s_balances st).

Definition total_escrow (st : Vault) : Z := map_total escrow_of (s_pending st).

(** The accounting invariant of reachable states. *)
Record consistent (st : Vault) : Prop := mkConsistent {
  balances_in_range :
    ∀ user v, s_balances st !! user = Some v → 0 ≤ v ≤ MAX_UINT256;
  pending_well_formed :
    ∀ requestId r, s_pending st !! requestId = Some r →
      requester r ≠ address_zero ∧ 0 < amount r ≤ MAX_UINT256;
  ether_covers :
    total_balances st + total_escrow st ≤ this_balance st;
  ether_in_range : this_balance st ≤ MAX_UINT256
}.

(** * The checker script, [chainalysis.js] *)

Local Open Scope string_scope.

(** ** JavaScript values

    The values the script handles: what [JSON.parse] produces, and
    [undefined].  Numbers are the integers (status codes and lengths); a
    string is the sequence of its characters, one [ascii] each. *)
#[local] Unset Elimination Schemes.
Inductive Json :=
| JUndefined
| JNull
| JBool (b : bool)
| JNum (n : Z)
| JStr (s : string)
| JArr (items : list Json)
| JObj (fields : list (string * Json)).
#[local] Set Elimination Schemes.

Inductive Exception :=
| JsError (message : Json)   (* [Error(message)] *)
| JsTypeError.               (* property read on [undefined] or [null] *)

(** Own property [p] of an object literal; the first binding stands for
    the property. *)
Fixpoint field (p : string) (fields : list (string * Json)) : Json :=
  match fields with
  | [] => JUndefined
  | (k, v) :: rest => if decide (k = p) then v else field p rest
  end.

(** [v.p] for an identifier [p]; [None] when the read throws. *)
Definition prop (v : Json) (p : string) : option Json :=
  match v with
  | JUndefined | JNull => None
  | JObj fields => Some (field p fields)
  | JArr items =>
      Some (if decide (p = "length") then JNum (Z.of_nat (length items)) else JUndefined)
  | JStr s =>
      Some (if decide (p = "length") then JNum (Z.of_nat (String.length s)) else JUndefined)
  | JBool _ | JNum _ => Some JUndefined
  end.

(** [v === n] for a number literal, [v === s] for a string literal and
    [v === null]. *)
Definition is_number (v : Json) (n : Z) : bool :=
  match v with JNum m => bool_decide (m = n) | _ => false end.

Definition is_string (v : Json) (s : string) : bool :=
  match v with JStr t => bool_decide (t = s) | _ => false end.

Definition is_null (v : Json) : bool :=
  match v with JNull => true | _ => false end.

Definition truthy (v : Json) : bool :=
  match v with
  | JUndefined | JNull => false
  | JBool b => b
  | JNum n => negb (bool_decide (n = 0))
  | JStr s => negb (bool_decide (s = ""))
  | JArr _ | JObj _ => true
  end.

(** [a || b] *)
Definition or_else (a b : Json) : Json := if truthy a then a else b.

(** ** Requests and responses *)

(** A template literal, with the interpolated values left in place. *)
Inductive Piece :=
| Text (s : string)
| Hole (v : Json).

(** A field of a request body.  [amount / 10 ** 18] is kept as the
    quotient it denotes. *)
Inductive BodyValue :=
| BJson (v : Json)
| BQuotient (numerator : Json) (denominator : Z).

Record HttpRequest := mkHttpRequest {
  method : option string;
  url : list Piece;
  token : option string;            (* headers: { Token: secrets.apiKey } *)
  data_out : list (string * BodyValue)
}.

(** What [Functions.makeHttpRequest] resolves to. *)
Record HttpResponse := mkHttpResponse {
  status : Json;
  statusText : Json;
  data : Json
}.

(** What the script reads from outside: its arguments and secrets, the
    HTTP service, the random source and the clock. *)
Record World := mkWorld {
  args : list string;
  apiKey : option string;                     (* [secrets.apiKey] *)
  http : HttpRequest → HttpResponse;
  random_index : nat → nat → nat;             (* k-th [Math.floor(Math.random() * n)] *)
  now_iso : string                            (* [new Date().toISOString()] *)
}.

(** ** The script monad

    A run reads the world, counts the random draws it makes, records the
    requests it sends, in order, and returns or throws. *)

Record Progress := mkProgress {
  draws : nat;
  calls : list HttpRequest
}.

Definition start : Progress := mkProgress 0 [].

Inductive Completion (A : Type) :=
| Returned (a : A) (p : Progress)
| Thrown (e : Exception) (p : Progress).
Arguments Returned {A} a p.
Arguments Thrown {A} e p.

Definition Script (A : Type) : Type := World → Progress → Completion A.

#[global] Instance Script_ret : MRet Script := λ A a w p, Returned a p.

#[global] Instance Script_bind : MBind Script := λ A B f m w p,
  match m w p with
  | Returned a p' => f a w p'
  | Thrown e p' => Thrown e p'
  end.

Definition throw {A} (e : Exception) : Script A := λ _ p, Thrown e p.

(** The progress of a run that has sent one more request. *)
Definition sent (req : HttpRequest) (p : Progress) : Progress :=
  mkProgress (draws p) (calls p ++ [req]).

(** The progress of a run that has made [n] more draws. *)
Definition drawn (n : nat) (p : Progress) : Progress :=
  mkProgress (n + draws p) (calls p).

Definition makeHttpRequest (req : HttpRequest) : Script HttpResponse :=
  λ w p, Returned (http w req) (sent req p).

Definition secrets_apiKey : Script (option string) := λ w p, Returned (apiKey w) p.

Definition current_time : Script string := λ w p, Returned (now_iso w) p.

(** [Math.floor(Math.random() * n)] *)
Definition random_below (n : nat) : Script nat :=
  λ w p, Returned (random_index w (draws p) n `mod` n)%nat (drawn 1 p).

(** Property read inside the script. *)
Definition get (v : Json) (p : string) : Script Json :=
  match prop v p with
  | Some x => mret x
  | None => throw JsTypeError
  end.

(** The byte of value [z mod 256]. *)
Definition byte_of_Z (z : Z) : Byte.byte :=
  default Byte.x00 (Byte.of_N (Z.to_N (z `mod` 256))).

(** The [len] low-order bytes of [n], most significant first. *)
Fixpoint be_bytes (len : nat) (n : Z) : list Byte.byte :=
  match len with
  | O => []
  | S len' => be_bytes len' (n `div` 256) ++ [byte_of_Z n]
  end.

(** Modelled from the spec: [Functions.encodeUint256] belongs to the runtime
    library of the oracle network and is not among the sources; the success
    payload is a 32-byte big-endian unsigned integer. *)
Definition encodeUint256 (n : Z) : list Byte.byte := be_bytes 32 n.

Section Script.

(** The conversions of the language that are not modelled: [Number(s)] on a
    string ([Some n] when the result is the integer [n], [None] for any
    other number), and [v > 0] on a string, an array or an object
    ([inl e] when the conversion throws). *)
Variable Number_of_string : string → option Z.
Variable coerced_positive : Json → Exception + bool.

(** [Number(v)] as far as the [switch] needs it. *)
Definition Number (v : Json) : option Z :=
  match v with
  | JStr s => Number_of_string s
  | JNum n => Some n
  | JNull => Some 0
  | JBool b => Some (if b then 1 else 0)
  | _ => None
  end.

(** [v > 0] *)
Definition greater_than_zero (v : Json) : Exception + bool :=
  match v with
  | JNum n => inr (bool_decide (0 < n)%Z)
  | JUndefined | JNull => inr false
  | JBool b => inr b
  | JStr _ | JArr _ | JObj _ => coerced_positive v
  end.

Definition gt_zero (v : Json) : Script bool :=
  match greater_than_zero v with
  | inr b => mret b
  | inl e => throw e
  end.

(** [s.charAt(i)] *)
Definition charAt (s : string) (i : nat) : string :=
  match String.get i s with
  | Some c => String c EmptyString
  | None => ""
  end.

Definition characters : string :=
  "ABCDEFGHIJKLMNOPQRSTUVWXYZabcdefghijklmnopqrstuvwxyz0123456789".

(** The loop of [generateRandomSequence], [n] iterations to go. *)
Fixpoint random_sequence_loop (n : nat) (sequence : string) : Script string :=
  match n with
  | O => mret sequence
  | S n' =>
      randomIndex ← random_below (String.length characters);
      let randomChar := charAt characters randomIndex in
      random_sequence_loop n' (sequence ++ randomChar)
  end.

Definition generateRandomSequence : Script string := random_sequence_loop 5 "".

(** [s.replace("Z", "")]: the first occurrence goes. *)
Fixpoint remove_first_Z (s : string) : string :=
  match s with
  | EmptyString => EmptyString
  | String c rest => if decide (c = "Z"%char) then rest else String c (remove_first_Z rest)
  end.

Definition entities_url : list Piece :=
  [Text "https://api.chainalysis.com/api/risk/v2/entities"].

Definition entity_url (address : Json) : list Piece :=
  [Text "https://api.chainalysis.com/api/risk/v2/entities/"; Hole address].

Definition register_request (key : option string) (address : Json) : HttpRequest :=
  mkHttpRequest (Some "POST") entities_url key [("address", BJson address)].

Definition risk_request (key : option string) (address : Json) : HttpRequest :=
  mkHttpRequest None (entity_url address) key [].

(** The error a failed call is reported with:
    [Error(response.statusText || response.status)]. *)
Definition status_error (r : HttpResponse) : Exception :=
  JsError (or_else (statusText r) (status r)).

Definition checkDeposit (address : Json) : Script (list Byte.byte) :=
  key ← secrets_apiKey;
  registerResponse ← makeHttpRequest (register_request key address);
  if negb (is_number (status registerResponse) 201) then
    throw (status_error registerResponse)
  else
    riskResponse ← makeHttpRequest (risk_request key address);
    if negb (is_number (status riskResponse) 200) then
      throw (status_error riskResponse)
    else
      risk ← get (data riskResponse) "risk";
      let isCompliant := if is_string risk "Low" then 1%Z else 0%Z in
      mret (encodeUint256 isCompliant).

Definition attempts_url (userId : string) : list Piece :=
  [Text "https://api.chainalysis.com/api/kyt/v2/users/"; Hole (JStr userId);
   Text "/withdrawal-attempts"].

Definition exposures_url (id : Json) : list Piece :=
  [Text "https://api.chainalysis.com/api/kyt/v2/withdrawal-attempts/"; Hole id;
   Text "/exposures"].

Definition alerts_url (id : Json) : list Piece :=
  [Text "https://api.chainalysis.com/api/kyt/v2/withdrawal-attempts/"; Hole id;
   Text "/alerts"].

Definition registration_request (key : option string) (userId : string)
    (address : Json) (attemptIdentifier : string) (amount : Json)
    (attemptTimestamp : string) : HttpRequest :=
  mkHttpRequest (Some "POST") (attempts_url userId) key
    [("network", BJson (JStr "Ethereum"));
     ("asset", BJson (JStr "ETH"));
     ("address", BJson address);
     ("attemptIdentifier", BJson (JStr attemptIdentifier));
     ("assetAmount", BQuotient amount (10 ^ 18));
     ("attemptTimestamp", BJson (JStr attemptTimestamp))].

Definition exposures_request (key : option string) (id : Json) : HttpRequest :=
  mkHttpRequest None (exposures_url id) key [].

Definition alerts_request (key : option string) (id : Json) : HttpRequest :=
  mkHttpRequest None (alerts_url id) key [].

Definition checkWithdrawal (address amount : Json) : Script (list Byte.byte) :=
  seq1 ← generateRandomSequence;
  let userId := "user" ++ seq1 in
  seq2 ← generateRandomSequence;
  let attemptIdentifier := "attempt" ++ seq2 in
  now ← current_time;
  let attemptTimestamp := remove_first_Z now in
  key ← secrets_apiKey;
  registrationResponse ← makeHttpRequest
    (registration_request key userId address attemptIdentifier amount attemptTimestamp);
  if negb (is_number (status registrationResponse) 202) then
    throw (status_error registrationResponse)
  else
    id ← get (data registrationResponse) "externalId";
    exposuresResponse ← makeHttpRequest (exposures_request key id);
    if negb (is_number (status exposuresResponse) 200) then
      throw (status_error exposuresResponse)
    else
      direct ← get (data exposuresResponse) "direct";
      name ← get direct "name";
      let hasDirectExposure := negb (is_null name) in
      alertsResponse ← makeHttpRequest (alerts_request key id);
      if negb (is_number (status alertsResponse) 200) then
        throw (status_error alertsResponse)
      else
        alerts ← get (data alertsResponse) "alerts";
        len ← get alerts "length";
        hasAlerts ← gt_zero len;
        let isCompliant :=
          if negb hasDirectExposure && negb hasAlerts then 1%Z else 0%Z in
        mret (encodeUint256 isCompliant).

(** [args[i]] *)
Definition arg (w : World) (i : nat) : Json :=
  match args w !! i with
  | Some s => JStr s
  | None => JUndefined
  end.

(** The body of the script.  [secrets.apiKey == ""] holds of the empty
    string only, a secret being a string when it is set. *)
Definition main : Script (list Byte.byte) :=
  λ w,
    let requestType := Number (arg w 0) in
    let address := arg w 1 in
    let amount := arg w 2 in
    (key ← secrets_apiKey;
     if bool_decide (key = Some "") then
       throw (JsError (JStr
         "CHAINALYSIS_API_KEY environment variable not set for Chainalysis API"))
     else
       match requestType with
       | Some 0%Z => checkDeposit address
       | Some 1%Z => checkWithdrawal address amount
       | _ => throw (JsError (JStr "Invalid request type"))
       end) w.

(** The string [generateRandomSequence] builds when [k] draws were made
    before it. *)
Definition sequence_at (w : World) (k : nat) : string :=
  match generateRandomSequence w (mkProgress k []) with
  | Returned sequence _ => sequence
  | Thrown _ _ => ""
  end.

(** The registration call of [checkWithdrawal] started after [k] draws. *)
Definition withdrawal_registration (w : World) (k : nat) (address amount : Json)
    : HttpRequest :=
  registration_request (apiKey w) ("user" ++ sequence_at w k) address
    ("attempt" ++ sequence_at w (5 + k)) amount (remove_first_Z (now_iso w)).

(** ** What a run and a response report *)

Definition returns {A} (c : Completion A) (a : A) : Prop := ∃ p, c = Returned a p.

Definition throws {A} (c : Completion A) : Prop := ∃ e p, c = Thrown e p.

(** The requests a run has sent when it ends. *)
Definition calls_made {A} (c : Completion A) : list HttpRequest :=
  match c with
  | Returned _ p | Thrown _ p => calls p
  end.

(** The call protocol of a deposit check: the address is registered, and
    its risk is read if the registration answered 201. *)
Definition deposit_protocol (w : World) (address : Json) : list HttpRequest :=
  let registration := register_request (apiKey w) address in
  registration ::
    if is_number (status (http w registration)) 201
    then [risk_request (apiKey w) address]
    else [].

(** The call protocol of a withdrawal check, started after [k] draws: the
    attempt is registered; if the registration answered 202 and names the
    attempt, its exposures are read; if that read answered 200 and names a
    direct exposure or none, its alerts are read. *)
Definition withdrawal_protocol (w : World) (k : nat) (address amount : Json)
    : list HttpRequest :=
  let registration := withdrawal_registration w k address amount in
  registration ::
    if is_number (status (http w registration)) 202 then
      match prop (data (http w registration)) "externalId" with
      | Some id =>
          let exposures := exposures_request (apiKey w) id in
          exposures ::
            if is_number (status (http w exposures)) 200 then
              match prop (data (http w exposures)) "direct" with
              | Some direct =>
                  match prop direct "name" with
                  | Some _ => [alerts_request (apiKey w) id]
                  | None => []
                  end
              | None => []
              end
            else []
      | None => []
      end
    else [].

(** What the reads report: the risk of the entity is "Low"; the attempt has
    no direct exposure ([direct.name] is [null]); the attempt has no alerts
    ([alerts.length > 0] does not hold). *)
Definition reports_low_risk (r : HttpResponse) : Prop :=
  prop (data r) "risk" = Some (JStr "Low").

Definition reports_no_direct_exposure (r : HttpResponse) : Prop :=
  ∃ direct, prop (data r) "direct" = Some direct ∧ prop direct "name" = Some JNull.

Definition reports_no_alerts (r : HttpResponse) : Prop :=
  ∃ alerts len, prop (data r) "alerts" = Some alerts
    ∧ prop alerts "length" = Some len ∧ greater_than_zero len = inr false.

End Script.

(** A string-to-number conversion that is right on the two action
    identifiers the contract sends, and a comparison that never holds of a
    non-number: an instance of the unmodelled conversions. *)
Definition sample_Number (s : string) : option Z :=
  if decide (s = "0") then Some 0%Z
  else if decide (s = "1") then Some 1%Z
  else None.

Definition sample_positive (v : Json) : Exception + bool := inr false.

(** A service that registers every address and attempt, rates every
    entity as low risk and knows of no exposure and no alert. *)
Definition lenient_service (req : HttpRequest) : HttpResponse :=
  match method req, url req with
  | Some _, [Text _] =>
      mkHttpResponse (JNum 201) (JStr "Created") (JObj [])
  | None, [Text _; Hole _] =>
      mkHttpResponse (JNum 200) (JStr "OK") (JObj [("risk", JStr "Low")])
  | Some _, [Text _; Hole _; Text _] =>
      mkHttpResponse (JNum 202) (JStr "Accepted") (JObj [("externalId", JStr "e1")])
  | None, [Text _; Hole _; Text kind] =>
      if decide (kind = "/alerts") then
        mkHttpResponse (JNum 200) (JStr "OK") (JObj [("alerts", JArr [])])
      else
        mkHttpResponse (JNum 200) (JStr "OK")
          (JObj [("direct", JObj [("name", JNull)])])
  | _, _ => mkHttpResponse JUndefined JUndefined JUndefined
  end.

Definition deposit_world : World :=
  mkWorld ["0"; "0x05"] (Some "key") lenient_service (λ k n, (7 * k + 3)%nat)
    "2023-05-01T10:00:00.000Z".

Definition withdrawal_world : World :=
  mkWorld ["1"; "0x05"; "600"] (Some "key") lenient_service (λ k n, (7 * k + 3)%nat)
    "2023-05-01T10:00:00.000Z".

(** * Scenarios

    Concrete accounts, payloads and call sequences on which the properties
    below are exercised. *)

Definition alice : Z := 5.

(** A contract that called [requestDeposit] and has no receive function. *)
Definition sealed_contract : Z := 99.

Definition everyone_accepts : Z → bool := λ _, true.

Definition accounts_accept : Z → bool :=
  λ a, negb (bool_decide (a = sealed_contract)).

Definition approve : list Byte.byte := encodeUint256 1.
Definition reject : list Byte.byte := encodeUint256 0.
Definition failure : list Byte.byte := [Byte.x65; Byte.x72; Byte.x72].

(** Scenario 1 of the specification: a deposit of 1000, approved. *)
Definition deposit_approved : list Call :=
  [CallRequestDeposit alice 1000 7; CallFulfill 7 approve []].

(** Then two withdrawals of 600 each are dispatched, and the first is
    approved. *)
Definition double_withdrawal : list Call :=
  deposit_approved
  ++ [CallRequestWithdrawal alice 600 8; CallRequestWithdrawal alice 600 9;
      CallFulfill 8 approve []].

(** A deposit waiting for its callback. *)
Definition awaiting_deposit : Vault :=
  run everyone_accepts initial [CallRequestDeposit alice 1000 7].

(** A withdrawal waiting for its callback, the balance covering it. *)
Definition awaiting_withdrawal : Vault :=
  run everyone_accepts initial (deposit_approved ++ [CallRequestWithdrawal alice 600 8]).

(** The second of two withdrawals waiting, the balance no longer covering it. *)
Definition overdrawn : Vault := run everyone_accepts initial double_withdrawal.

(** A deposit made by the sealed contract, waiting for its callback. *)
Definition sealed_deposit : Vault :=
  run accounts_accept initial [CallRequestDeposit sealed_contract 1000 7].


(** * Further observations

    Quantities read off a call, a receipt or a request, used to state what
    the vault and the script do over whole runs. *)


(** The effects of a call that was committed; a reverted call has none. *)
Definition log_of (r : Receipt) : list Effect :=
  match r with
  | Success log => log
  | Reverted _ => []
  end.

(** The ether a log sends out of the contract, in all and to one account. *)
Definition transferred (log : list Effect) : Z :=
  fold_right (λ x acc,
    match x with
    | Transfer _ value => (value + acc)%Z
    | _ => acc
    end) 0%Z log.

Definition transferred_to (who : Z) (log : list Effect) : Z :=
  fold_right (λ x acc,
    match x with
    | Transfer to value => if decide (to = who) then (value + acc)%Z else acc
    | _ => acc
    end) 0%Z log.

(** The ether a committed [requestDeposit] of [who] brings. *)
Definition deposited_by (who : Z) (c : Call) (r : Receipt) : Z :=
  match c, r with
  | CallRequestDeposit sender value _, Success _ =>
      if decide (sender = who) then value else 0%Z
  | _, _ => 0%Z
  end.

(** The escrow a pending request holds for [who]. *)
Definition escrow_for (who : Z) (r : PendingRequest) : Z :=
  if decide (requester r = who) then escrow_of r else 0%Z.

(** Every way a callback can end: the pair of the state it leaves and its
    receipt. *)
Inductive callback_outcome (st : Vault) (requestId : Z) (response err : list Byte.byte)
    : Vault * Receipt → Prop :=
| outcome_unknown :
    requester (pending st requestId) = address_zero →
    callback_outcome st requestId response err (st, Success [Emit NoPendingRequest])
| outcome_reverted e :
    requester (pending st requestId) ≠ address_zero → err = [] →
    callback_outcome st requestId response err (st, Reverted e)
| outcome_failed :
    requester (pending st requestId) ≠ address_zero → err ≠ [] →
    callback_outcome st requestId response err
      (retire requestId st, Success [Emit (RequestFailed err)])
| outcome_credited :
    let r := pending st requestId in
    requester r ≠ address_zero → err = [] → requestType r = Deposit →
    uint256_of_response response = 1%Z →
    callback_outcome st requestId response err
      (mkVault (<[requester r := (balance st (requester r) + amount r)%Z]> (s_balances st))
               (delete requestId (s_pending st)) (this_balance st),
       Success [Emit (DepositRequestFulfilled requestId (requester r) (amount r))])
| outcome_refunded :
    let r := pending st requestId in
    requester r ≠ address_zero → err = [] → requestType r = Deposit →
    uint256_of_response response ≠ 1%Z →
    callback_outcome st requestId response err
      (mkVault (s_balances st) (delete requestId (s_pending st))
               (this_balance st - amount r)%Z,
       Success [Transfer (requester r) (amount r);
                Emit (DepositRequestCancelled requestId (requester r) (amount r))])
| outcome_paid :
    let r := pending st requestId in
    requester r ≠ address_zero → err = [] → requestType r = Withdrawal →
    uint256_of_response response = 1%Z → (amount r ≤ balance st (requester r))%Z →
    callback_outcome st requestId response err
      (mkVault (<[requester r := (balance st (requester r) - amount r)%Z]> (s_balances st))
               (delete requestId (s_pending st)) (this_balance st - amount r)%Z,
       Success [Transfer (requester r) (amount r);
                Emit (WithdrawalRequestFulfilled requestId (requester r) (amount r))])
| outcome_cancelled :
    let r := pending st requestId in
    requester r ≠ address_zero → err = [] → requestType r = Withdrawal →
    uint256_of_response response ≠ 1%Z →
    callback_outcome st requestId response err
      (retire requestId st,
       Success [Emit (WithdrawalRequestCancelled requestId (requester r) (amount r))]).


Section Flows.
Variable accepts : Z → bool.



Fixpoint ether_in_from (who : Z) (st : Vault) (cs : list Call) : Z :=
  match cs with
  | [] => 0%Z
  | c :: cs' =>
      (deposited_by who c (exec accepts st c).2
       + ether_in_from who (exec accepts st c).1 cs')%Z
  end.

Fixpoint ether_out_to (who : Z) (st : Vault) (cs : list Call) : Z :=
  match cs with
  | [] => 0%Z
  | c :: cs' =>
      (transferred_to who (log_of (exec accepts st c).2)
       + ether_out_to who (exec accepts st c).1 cs')%Z
  end.

End Flows.

(** Does a character occur in a string, and do all characters of a string
    satisfy a test? *)
Fixpoint char_in (c : ascii) (s : string) : bool :=
  match s with
  | EmptyString => false
  | String d rest => bool_decide (c = d) || char_in c rest
  end.

Fixpoint all_chars (test : ascii → bool) (s : string) : bool :=
  match s with
  | EmptyString => true
  | String c rest => test c && all_chars test rest
  end.

(** Is the request addressed to the Chainalysis API? *)
Definition targets_chainalysis (req : HttpRequest) : bool :=
  match url req with
  | Text t :: _ => String.prefix "https://api.chainalysis.com/api/" t
  | _ => false
  end.

Section Rendering.

(** [Strings.toHexString] and [Strings.toString] come from a library that is
    not among the sources; the strings they produce are taken as given. *)
Variable toHexString : Z → string.
Variable toString : Z → string.

(** An argument of the oracle request as the string the script receives. *)
Definition render (a : Arg) : string :=
  match a with
  | ArgLiteral s => s
  | ArgHexAddress a => toHexString a
  | ArgDecimal n => toString n
  end.

(** The world of a script run started for an oracle request. *)
Definition world_of (request : list Arg) (key : option string)
    (service : HttpRequest → HttpResponse) (random : nat → nat → nat)
    (clock : string) : World :=
  mkWorld (map render request) key service random clock.

End Rendering.

(** Renderings that are right on the account and the amount of the
    scenarios: an instance of the two library functions. *)
Definition sample_toHexString (a : Z) : string :=
  if decide (a = alice) then "0x05" else "0x00".

Definition sample_toString (n : Z) : string :=
  if decide (n = 600%Z) then "600" else "0".

(** The random source and the clock of the sample worlds. *)
Definition sample_random : nat → nat → nat := λ k n, (7 * k + 3)%nat.

Definition sample_clock : string := "2023-05-01T10:00:00.000Z".


(** * Properties of the vault *)

(** ** The success payload

    What the script encodes with [encodeUint256] is what the callback reads
    with [uint256(bytes32(response))]. *)

Lemma byte_of_Z_value z : Z.of_N (Byte.to_N (byte_of_Z z)) = (z `mod` 256)%Z.
Proof.
  unfold byte_of_Z. pose proof (Z.mod_pos_bound z 256 eq_refl) as Hb.
  destruct (Byte.of_N (Z.to_N (z `mod` 256))) as [b|] eqn:Hof; simpl.
  - apply Byte.to_of_N in Hof. rewrite Hof. lia.
  - apply Byte.of_N_None_iff in Hof. lia.
Qed.

Lemma be_value_snoc l b :
  be_value (l ++ [b]) = (be_value l * 256 + Z.of_N (Byte.to_N b))%Z.
Proof. unfold be_value. by rewrite fold_left_app. Qed.

Lemma length_be_bytes len n : length (be_bytes len n) = len.
Proof.
  revert n. induction len as [|len IH]; intros n; [done|].
  simpl. rewrite length_app, IH. simpl. lia.
Qed.

Lemma be_value_be_bytes len n :
  (0 ≤ n)%Z → be_value (be_bytes len n) = (n `mod` 256 ^ Z.of_nat len)%Z.
Proof.
  revert n. induction len as [|len IH]; intros n Hn.
  - simpl. by rewrite Z.mod_1_r.
  - simpl be_bytes. rewrite be_value_snoc, byte_of_Z_value.
    rewrite IH by (apply Z.div_pos; lia).
    rewrite Nat2Z.inj_succ, Z.pow_succ_r by lia.
    rewrite (Z.rem_mul_r n 256 (256 ^ Z.of_nat len)) by lia. lia.
Qed.

Lemma bytes32_of_bytes_exact b : length b = 32%nat → bytes32_of_bytes b = b.
Proof.
  intros Hlen. unfold bytes32_of_bytes.
  rewrite take_app_le by lia. apply take_ge. lia.
Qed.



(** ** Sums over finite maps *)

Section MapTotal.
Context {V : Type} (f : V → Z).

Lemma map_total_empty : map_total f ∅ = 0%Z.
Proof. unfold map_total. by rewrite map_fold_empty. Qed.

Lemma map_total_insert_fresh (m : gmap Z V) k v :
  m !! k = None → map_total f (<[k:=v]> m) = (f v + map_total f m)%Z.
Proof.
  intros Hk. unfold map_total.
  rewrite map_fold_insert_L; [done | | done].
  intros; lia.
Qed.

Lemma map_total_delete (m : gmap Z V) k v :
  m !! k = Some v → map_total f m = (f v + map_total f (delete k m))%Z.
Proof.
  intros Hk. unfold map_total.
  rewrite (map_fold_delete_L _ _ k v m); [done | | done].
  intros; lia.
Qed.

Lemma map_total_insert (m : gmap Z V) k v :
  map_total f (<[k:=v]> m) = (f v + map_total f (delete k m))%Z.
Proof.
  rewrite <- insert_delete_eq.
  apply map_total_insert_fresh, lookup_delete_eq.
Qed.

Lemma map_total_nonneg (m : gmap Z V) :
  (∀ k v, m !! k = Some v → (0 ≤ f v)%Z) → (0 ≤ map_total f m)%Z.
Proof.
  induction m as [|k v m Hk IH] using map_ind; intros Hpos.
  - rewrite map_total_empty. lia.
  - rewrite map_total_insert_fresh by done.
    assert (0 ≤ f v)%Z by (apply (Hpos k); by rewrite lookup_insert_eq).
    assert (0 ≤ map_total f m)%Z; [|lia].
    apply IH. intros j w Hj. apply (Hpos j).
    rewrite lookup_insert_ne; [done|]. intros ->. congruence.
Qed.

Lemma map_total_delete_nonneg (m : gmap Z V) k :
  (∀ k v, m !! k = Some v → (0 ≤ f v)%Z) → (0 ≤ map_total f (delete k m))%Z.
Proof.
  intros Hpos. apply map_total_nonneg. intros j w Hj.
  apply (Hpos j). apply lookup_delete_Some in Hj. tauto.
Qed.

Lemma map_total_lookup_le (m : gmap Z V) k v :
  (∀ k v, m !! k = Some v → (0 ≤ f v)%Z) →
  m !! k = Some v → (f v ≤ map_total f m)%Z.
Proof.
  intros Hpos Hk. rewrite (map_total_delete m k v Hk).
  pose proof (map_total_delete_nonneg m k Hpos). lia.
Qed.

Lemma map_total_delete_le (m : gmap Z V) k :
  (∀ k v, m !! k = Some v → (0 ≤ f v)%Z) →
  (map_total f (delete k m) ≤ map_total f m)%Z.
Proof.
  intros Hpos. destruct (m !! k) as [v|] eqn:Hk.
  - rewrite (map_total_delete m k v Hk).
    pose proof (Hpos k v Hk). lia.
  - rewrite delete_id by done. lia.
Qed.

End MapTotal.

(** ** The callback, case by case *)

Ltac tx_unfold :=
  unfold fulfillRequest, requestDeposit, requestWithdrawal, executeRequest,
    executeDeposit, executeWithdraw, transfer, checked, checked_add, checked_sub,
    read_pending, write_pending, delete_pending, read_balance, write_balance,
    emit, revert, mbind, mret, Tx_bind, Tx_ret; simpl.

Section VaultProperties.
Variable accepts : address → bool.

Local Open Scope Z_scope.

Lemma pending_lookup st requestId r :
  s_pending st !! requestId = Some r → pending st requestId = r.
Proof. unfold pending. by intros ->. Qed.

Lemma pending_absent st requestId :
  s_pending st !! requestId = None → pending st requestId = zero_request.
Proof. unfold pending. by intros ->. Qed.

Lemma fulfill_absent st requestId response err :
  requester (pending st requestId) = address_zero →
  fulfillRequest accepts requestId response err st = Ok tt st [Emit NoPendingRequest].
Proof. intros H. tx_unfold. by rewrite decide_True. Qed.

Lemma fulfill_failed st requestId response err :
  requester (pending st requestId) ≠ address_zero → err ≠ [] →
  fulfillRequest accepts requestId response err st
  = Ok tt (retire requestId st) [Emit (RequestFailed err)].
Proof.
  intros H Herr. tx_unfold. rewrite decide_False by done.
  rewrite decide_True; [done|]. destruct err; [done | simpl; lia].
Qed.

Lemma fulfill_deposit_approved st requestId response :
  ∀ r, pending st requestId = r →
  requester r ≠ address_zero → requestType r = Deposit →
  uint256_of_response response = 1 →
  fulfillRequest accepts requestId response [] st
  = if decide (balance st (requester r) + amount r ≤ MAX_UINT256) then
      Ok tt (mkVault (<[requester r := balance st (requester r) + amount r]> (s_balances st))
                     (delete requestId (s_pending st)) (this_balance st))
         [Emit (DepositRequestFulfilled requestId (requester r) (amount r))]
    else Revert ArithmeticPanic.
Proof.
  intros r <- H Hty Hone. tx_unfold. rewrite decide_False by done.
  rewrite Hty, Hone. simpl. unfold balance. simpl.
  by case_decide.
Qed.

Lemma fulfill_deposit_rejected st requestId response :
  ∀ r, pending st requestId = r →
  requester r ≠ address_zero → requestType r = Deposit →
  uint256_of_response response ≠ 1 →
  fulfillRequest accepts requestId response [] st
  = if decide (amount r ≤ this_balance st) then
      if accepts (requester r) then
        Ok tt (mkVault (s_balances st) (delete requestId (s_pending st))
                       (this_balance st - amount r))
           [Transfer (requester r) (amount r);
            Emit (DepositRequestCancelled requestId (requester r) (amount r))]
      else Revert TransferFailed
    else Revert TransferFailed.
Proof.
  intros r <- H Hty Hone. tx_unfold. rewrite decide_False by done.
  rewrite Hty. rewrite (decide_False (P := uint256_of_response response = 1)) by done.
  simpl. case_decide; [|done]. by destruct (accepts _).
Qed.

Lemma fulfill_withdrawal_approved st requestId response :
  ∀ r, pending st requestId = r →
  requester r ≠ address_zero → requestType r = Withdrawal →
  uint256_of_response response = 1 →
  fulfillRequest accepts requestId response [] st
  = if decide (amount r ≤ balance st (requester r)) then
      if decide (amount r ≤ this_balance st) then
        if accepts (requester r) then
          Ok tt (mkVault (<[requester r := balance st (requester r) - amount r]> (s_balances st))
                         (delete requestId (s_pending st))
                         (this_balance st - amount r))
             [Transfer (requester r) (amount r);
              Emit (WithdrawalRequestFulfilled requestId (requester r) (amount r))]
        else Revert TransferFailed
      else Revert TransferFailed
    else Revert ArithmeticPanic.
Proof.
  intros r <- H Hty Hone. tx_unfold. rewrite decide_False by done.
  rewrite Hty, Hone. simpl. unfold balance. simpl.
  case_decide; [|done]. simpl. case_decide; [|done]. by destruct (accepts _).
Qed.

Lemma fulfill_withdrawal_rejected st requestId response :
  ∀ r, pending st requestId = r →
  requester r ≠ address_zero → requestType r = Withdrawal →
  uint256_of_response response ≠ 1 →
  fulfillRequest accepts requestId response [] st
  = Ok tt (retire requestId st)
       [Emit (WithdrawalRequestCancelled requestId (requester r) (amount r))].
Proof.
  intros r <- H Hty Hone. tx_unfold. rewrite decide_False by done.
  rewrite Hty. by rewrite (decide_False (P := uint256_of_response response = 1)).
Qed.


(** ** The accounting invariant *)

Lemma escrow_nonneg st :
  consistent st → ∀ k r, s_pending st !! k = Some r → 0 ≤ escrow_of r.
Proof.
  intros [_ Hp _ _] k r Hk. destruct (Hp k r Hk) as [_ Ha].
  unfold escrow_of. destruct (requestType r); lia.
Qed.

Lemma balances_nonneg st :
  consistent st → ∀ k v, s_balances st !! k = Some v → 0 ≤ id v.
Proof. intros [Hb _ _ _] k v Hk. destruct (Hb k v Hk). simpl. lia. Qed.

Lemma balance_range st user :
  consistent st → 0 ≤ balance st user ≤ MAX_UINT256.
Proof.
  intros [Hb _ _ _]. unfold balance.
  destruct (s_balances st !! user) as [v|] eqn:Hu; simpl.
  - exact (Hb user v Hu).
  - unfold MAX_UINT256. lia.
Qed.

Lemma balance_le_total st user :
  consistent st → balance st user ≤ total_balances st.
Proof.
  intros Hc. unfold balance, total_balances.
  destruct (s_balances st !! user) as [v|] eqn:Hu; simpl.
  - apply (map_total_lookup_le id _ user v (balances_nonneg st Hc) Hu).
  - apply map_total_nonneg, (balances_nonneg st Hc).
Qed.

Lemma total_balances_write st user v :
  map_total id (<[user := v]> (s_balances st))
  = total_balances st - balance st user + v.
Proof.
  rewrite map_total_insert. unfold total_balances, balance.
  destruct (s_balances st !! user) as [w|] eqn:Hu; simpl.
  - rewrite (map_total_delete id _ user w Hu). unfold id. lia.
  - rewrite delete_id by done. unfold id. lia.
Qed.

Lemma total_escrow_retire st requestId r :
  s_pending st !! requestId = Some r →
  map_total escrow_of (delete requestId (s_pending st)) = total_escrow st - escrow_of r.
Proof.
  intros Hr. unfold total_escrow.
  rewrite (map_total_delete escrow_of _ requestId r Hr). lia.
Qed.

Lemma totals_nonneg st :
  consistent st → 0 ≤ total_balances st ∧ 0 ≤ total_escrow st.
Proof.
  intros Hc. split.
  - apply map_total_nonneg, (balances_nonneg st Hc).
  - apply map_total_nonneg, (escrow_nonneg st Hc).
Qed.

Lemma consistent_initial : consistent initial.
Proof.
  split; simpl.
  - intros user v H. by rewrite lookup_empty in H.
  - intros k r H. by rewrite lookup_empty in H.
  - unfold total_balances, total_escrow. simpl. rewrite !map_total_empty. lia.
  - unfold MAX_UINT256. lia.
Qed.

(** Registering a request keeps the accounts consistent when the ether it
    brings covers the escrow it adds. *)
Lemma consistent_register st requestId r value :
  consistent st →
  requester r ≠ address_zero → 0 < amount r ≤ MAX_UINT256 →
  escrow_of r ≤ value → this_balance st + value ≤ MAX_UINT256 →
  consistent (mkVault (s_balances st) (<[requestId := r]> (s_pending st))
                      (this_balance st + value)).
Proof.
  intros Hc Hreq Hamt Hesc Hmax.
  pose proof (totals_nonneg st Hc) as [Hb He].
  destruct Hc as [Hbal Hpen Hcov Hrange] eqn:Hceq.
  split; simpl.
  - exact Hbal.
  - intros k r' Hk. destruct (decide (requestId = k)) as [->|Hne].
    + rewrite lookup_insert_eq in Hk. by inversion Hk; subst.
    + rewrite lookup_insert_ne in Hk by done. by apply (Hpen k).
  - unfold total_escrow, total_balances in *. simpl.
    rewrite map_total_insert.
    pose proof (map_total_delete_le escrow_of (s_pending st) requestId
                  (escrow_nonneg st (mkConsistent st Hbal Hpen Hcov Hrange))).
    lia.
  - lia.
Qed.

Lemma consistent_retire st requestId :
  consistent st → consistent (retire requestId st).
Proof.
  intros Hc. pose proof (escrow_nonneg st Hc) as Hnn.
  destruct Hc as [Hbal Hpen Hcov Hrange].
  split; simpl; [done | | | done].
  - intros k r Hk. apply lookup_delete_Some in Hk as [_ Hk]. by apply (Hpen k).
  - unfold total_escrow, total_balances in *. simpl.
    pose proof (map_total_delete_le escrow_of (s_pending st) requestId Hnn). lia.
Qed.

Lemma consistent_credit st requestId r :
  consistent st → s_pending st !! requestId = Some r → requestType r = Deposit →
  balance st (requester r) + amount r ≤ MAX_UINT256 →
  consistent (mkVault (<[requester r := balance st (requester r) + amount r]> (s_balances st))
                      (delete requestId (s_pending st)) (this_balance st)).
Proof.
  intros Hc Hr Hty Hmax.
  pose proof (balance_range st (requester r) Hc) as Hbr.
  pose proof (consistent_retire st requestId Hc) as [_ Hpen' _ _].
  destruct Hc as [Hbal Hpen Hcov Hrange].
  destruct (Hpen requestId r Hr) as [_ Ha].
  split; simpl; [ | exact Hpen' | | done].
  - intros user v Hu. destruct (decide (requester r = user)) as [<-|Hne].
    + rewrite lookup_insert_eq in Hu. inversion Hu; subst. lia.
    + rewrite lookup_insert_ne in Hu by done. by apply (Hbal user).
  - unfold total_balances, total_escrow in *. simpl.
    rewrite total_balances_write.
    rewrite (total_escrow_retire st requestId r Hr).
    unfold total_balances, total_escrow, escrow_of in *. rewrite Hty. simpl. lia.
Qed.

Lemma consistent_refund st requestId r :
  consistent st → s_pending st !! requestId = Some r → requestType r = Deposit →
  consistent (mkVault (s_balances st) (delete requestId (s_pending st))
                      (this_balance st - amount r)).
Proof.
  intros Hc Hr Hty.
  pose proof (consistent_retire st requestId Hc) as [_ Hpen' _ _].
  destruct Hc as [Hbal Hpen Hcov Hrange].
  destruct (Hpen requestId r Hr) as [_ Ha].
  split; simpl; [done | exact Hpen' | | lia].
  unfold total_balances, total_escrow in *. simpl.
  rewrite (total_escrow_retire st requestId r Hr).
  unfold total_balances, total_escrow, escrow_of in *. rewrite Hty. simpl. lia.
Qed.

Lemma consistent_debit st requestId r :
  consistent st → s_pending st !! requestId = Some r →
  amount r ≤ balance st (requester r) →
  consistent (mkVault (<[requester r := balance st (requester r) - amount r]> (s_balances st))
                      (delete requestId (s_pending st)) (this_balance st - amount r)).
Proof.
  intros Hc Hr Hle.
  pose proof (balance_range st (requester r) Hc) as Hbr.
  pose proof (escrow_nonneg st Hc requestId r Hr) as Hesc.
  pose proof (consistent_retire st requestId Hc) as [_ Hpen' _ _].
  destruct Hc as [Hbal Hpen Hcov Hrange].
  destruct (Hpen requestId r Hr) as [_ Ha].
  split; simpl; [ | exact Hpen' | | lia].
  - intros user v Hu. destruct (decide (requester r = user)) as [<-|Hne].
    + rewrite lookup_insert_eq in Hu. inversion Hu; subst. lia.
    + rewrite lookup_insert_ne in Hu by done. by apply (Hbal user).
  - unfold total_balances, total_escrow in *. simpl.
    rewrite total_balances_write.
    rewrite (total_escrow_retire st requestId r Hr).
    unfold total_balances, total_escrow. lia.
Qed.

Lemma receive_value_zero st : receive_value 0 st = st.
Proof. destruct st as [b p e]. unfold receive_value. simpl. f_equal. lia. Qed.

(** An entry the callback finds is an entry of the registry. *)
Lemma found_is_entry st requestId :
  requester (pending st requestId) ≠ address_zero →
  s_pending st !! requestId = Some (pending st requestId).
Proof.
  unfold pending. destruct (s_pending st !! requestId); simpl; [done|].
  intros H. by destruct H.
Qed.

Lemma this_balance_nonneg st : consistent st → 0 ≤ this_balance st.
Proof.
  intros Hc. pose proof (totals_nonneg st Hc) as [? ?].
  destruct Hc as [_ _ Hcov _]. lia.
Qed.

Lemma exec_consistent st c :
  consistent st → wf_call st c → consistent (exec accepts st c).1.
Proof.
  intros Hc Hwf.
  pose proof (this_balance_nonneg st Hc) as Hthis.
  pose proof (ether_in_range st Hc) as Hether.
  destruct c as [sender value assigned|sender amt assigned|requestId response err];
    simpl; unfold transact.
  - destruct Hwf as (Hs & Hv & Hmax). tx_unfold.
    case_decide; simpl; [done|].
    apply consistent_register; unfold escrow_of; simpl; try done; lia.
  - destruct Hwf as (Hs & Hv & Hmax). tx_unfold.
    case_decide; simpl; [done|]. case_decide; simpl; [done|].
    apply consistent_register; unfold escrow_of; simpl; try done; lia.
  - rewrite receive_value_zero.
    destruct (decide (requester (pending st requestId) = address_zero)) as [Hz|Hnz].
    { by rewrite fulfill_absent. }
    pose proof (found_is_entry st requestId Hnz) as Hentry.
    destruct err as [|b err].
    2:{ rewrite fulfill_failed by done. simpl. by apply consistent_retire. }
    destruct (requestType (pending st requestId)) eqn:Hty;
      destruct (decide (uint256_of_response response = 1)) as [Hone|Hone].
    + rewrite (fulfill_deposit_approved st requestId response _ eq_refl) by done.
      case_decide; simpl; [|done]. by apply consistent_credit.
    + rewrite (fulfill_deposit_rejected st requestId response _ eq_refl) by done.
      case_decide; simpl; [|done]. destruct (accepts _); simpl; [|done].
      by apply consistent_refund.
    + rewrite (fulfill_withdrawal_approved st requestId response _ eq_refl) by done.
      case_decide; simpl; [|done]. case_decide; simpl; [|done].
      destruct (accepts _); simpl; [|done].
      by apply consistent_debit.
    + rewrite (fulfill_withdrawal_rejected st requestId response _ eq_refl) by done. simpl.
      by apply consistent_retire.
Qed.

Lemma reachable_consistent st : reachable accepts st → consistent st.
Proof.
  induction 1 as [|st c _ IH Hwf].
  - apply consistent_initial.
  - by apply exec_consistent.
Qed.

Lemma reachable_run st cs :
  reachable accepts st → wf_calls accepts st cs → reachable accepts (run accepts st cs).
Proof.
  revert st. induction cs as [|c cs IH]; intros st Hr Hwf; [done|].
  destruct Hwf as [Hc Hcs]. simpl. apply IH; [|done].
  by apply reachable_exec.
Qed.

(** A registered entry in a reachable state, as the callback reads it. *)
Lemma live_entry st requestId r :
  reachable accepts st → s_pending st !! requestId = Some r →
  pending st requestId = r ∧ requester r ≠ address_zero
  ∧ 0 < amount r ≤ MAX_UINT256.
Proof.
  intros Hreach Hr. split; [by apply pending_lookup|].
  exact (pending_well_formed st (reachable_consistent st Hreach) requestId r Hr).
Qed.

(** The ether held covers every balance and every escrowed deposit, and
    crediting an escrowed deposit cannot overflow. *)
Lemma balance_covered st user :
  consistent st → balance st user ≤ this_balance st.
Proof.
  intros Hc. pose proof (balance_le_total st user Hc).
  pose proof (totals_nonneg st Hc) as [_ ?].
  pose proof (ether_covers st Hc). lia.
Qed.

Lemma escrow_le_total st requestId r :
  consistent st → s_pending st !! requestId = Some r →
  escrow_of r ≤ total_escrow st.
Proof.
  intros Hc Hr.
  exact (map_total_lookup_le escrow_of _ requestId r (escrow_nonneg st Hc) Hr).
Qed.

Lemma escrow_covered st requestId r :
  consistent st → s_pending st !! requestId = Some r → requestType r = Deposit →
  amount r ≤ this_balance st
  ∧ balance st (requester r) + amount r ≤ MAX_UINT256.
Proof.
  intros Hc Hr Hty.
  pose proof (escrow_le_total st requestId r Hc Hr) as He.
  unfold escrow_of in He. rewrite Hty in He.
  pose proof (balance_le_total st (requester r) Hc).
  pose proof (totals_nonneg st Hc) as [? ?].
  pose proof (ether_covers st Hc). pose proof (ether_in_range st Hc). lia.
Qed.

Lemma balance_write_same st user v p e :
  balance (mkVault (<[user := v]> (s_balances st)) p e) user = v.
Proof. unfold balance. simpl. by rewrite lookup_insert_eq. Qed.

Lemma balance_write_other st user v p e other :
  other ≠ user →
  balance (mkVault (<[user := v]> (s_balances st)) p e) other = balance st other.
Proof. intros Hne. unfold balance. simpl. by rewrite lookup_insert_ne. Qed.


(** What a callback does to the registry, whatever the state: nothing when
    it finds no entry or reverts, otherwise it removes the entry it names. *)
Lemma fulfill_cases st requestId response err :
  let result := exec accepts st (CallFulfill requestId response err) in
  (requester (pending st requestId) = address_zero
     ∧ result = (st, Success [Emit NoPendingRequest]))
  ∨ (∃ e, result = (st, Reverted e))
  ∨ (requester (pending st requestId) ≠ address_zero
     ∧ ∃ log, result.2 = Success log
         ∧ s_pending result.1 = delete requestId (s_pending st)).
Proof.
  simpl. unfold transact. rewrite receive_value_zero.
  destruct (decide (requester (pending st requestId) = address_zero)) as [Hz|Hnz].
  { left. by rewrite fulfill_absent. }
  right. destruct err as [|b err].
  2:{ right. split; [done|]. rewrite fulfill_failed by done. by eexists. }
  destruct (requestType (pending st requestId)) eqn:Hty;
    destruct (decide (uint256_of_response response = 1)) as [Hone|Hone].
  - rewrite (fulfill_deposit_approved st requestId response _ eq_refl) by done.
    case_decide; [right; split; [done|]; by eexists | left; by eexists].
  - rewrite (fulfill_deposit_rejected st requestId response _ eq_refl) by done.
    case_decide; [|left; by eexists].
    destruct (accepts _); [right; split; [done|]; by eexists | left; by eexists].
  - rewrite (fulfill_withdrawal_approved st requestId response _ eq_refl) by done.
    case_decide; [|left; by eexists]. case_decide; [|left; by eexists].
    destruct (accepts _); [right; split; [done|]; by eexists | left; by eexists].
  - rewrite (fulfill_withdrawal_rejected st requestId response _ eq_refl) by done.
    right; split; [done|]; by eexists.
Qed.

(** A dispatch registers the identifier it was assigned, or reverts. *)
Lemma dispatch_cases st c :
  match c with
  | CallFulfill _ _ _ => True
  | CallRequestDeposit _ _ assigned | CallRequestWithdrawal _ _ assigned =>
      (∃ e, exec accepts st c = (st, Reverted e))
      ∨ (∃ log r, (exec accepts st c).2 = Success log
           ∧ s_pending (exec accepts st c).1 = <[assigned := r]> (s_pending st))
  end.
Proof.
  destruct c as [sender value assigned|sender amt assigned|]; [| |done];
    simpl; unfold transact; tx_unfold.
  - case_decide; [left; by eexists | right; by do 2 eexists].
  - case_decide; [left; by eexists|].
    case_decide; [left; by eexists | right; by do 2 eexists].
Qed.

Lemma exec_keeps_absent st c requestId :
  s_pending st !! requestId = None →
  assigned_id c (exec accepts st c).2 ≠ Some requestId →
  s_pending (exec accepts st c).1 !! requestId = None.
Proof.
  intros Habs Hne.
  destruct c as [sender value assigned|sender amt assigned|id response err].
  - destruct (dispatch_cases st (CallRequestDeposit sender value assigned))
      as [[e He] | (log & r & Hlog & Hst)].
    + by rewrite He.
    + rewrite Hst. rewrite Hlog in Hne. simpl in Hne.
      rewrite lookup_insert_ne; [done | congruence].
  - destruct (dispatch_cases st (CallRequestWithdrawal sender amt assigned))
      as [[e He] | (log & r & Hlog & Hst)].
    + by rewrite He.
    + rewrite Hst. rewrite Hlog in Hne. simpl in Hne.
      rewrite lookup_insert_ne; [done | congruence].
  - destruct (fulfill_cases st id response err)
      as [[_ He] | [[e He] | (_ & log & _ & Hst)]].
    + by rewrite He.
    + by rewrite He.
    + rewrite Hst. apply lookup_delete_None. by right.
Qed.

(** A callback that applies an effect removes the entry it names. *)
Lemma effect_retires st c requestId :
  applies_effect requestId c (exec accepts st c).2 = true →
  s_pending (exec accepts st c).1 !! requestId = None
  ∧ requester (pending st requestId) ≠ address_zero.
Proof.
  destruct c as [sender value assigned|sender amt assigned|id response err];
    intros Happ; [done | done |].
  destruct (fulfill_cases st id response err)
    as [[_ He] | [[e He] | (Hnz & log & Hlog & Hst)]].
  - rewrite He in Happ. simpl in Happ. by rewrite andb_false_r in Happ.
  - by rewrite He in Happ.
  - rewrite Hlog in Happ. simpl in Happ. apply andb_true_iff in Happ as [Hid _].
    apply bool_decide_eq_true in Hid. subst id.
    rewrite Hst. split; [apply lookup_delete_eq | done].
Qed.

Lemma absent_no_effect st c requestId :
  s_pending st !! requestId = None →
  applies_effect requestId c (exec accepts st c).2 = false.
Proof.
  intros Habs.
  destruct (applies_effect requestId c (exec accepts st c).2) eqn:Happ; [|done].
  destruct (effect_retires st c requestId Happ) as [_ Hnz].
  rewrite (pending_absent st requestId Habs) in Hnz. by destruct Hnz.
Qed.

Lemma dispatch_no_effect st c requestId id :
  assigned_id c (exec accepts st c).2 = Some id →
  applies_effect requestId c (exec accepts st c).2 = false.
Proof.
  destruct c; simpl; try done.
Qed.

Lemma not_assigned_step st c cs requestId :
  requestId ∉ assigned_ids accepts st (c :: cs) →
  assigned_id c (exec accepts st c).2 ≠ Some requestId
  ∧ requestId ∉ assigned_ids accepts (exec accepts st c).1 cs.
Proof.
  simpl. destruct (assigned_id c (exec accepts st c).2) as [id|]; [|done].
  intros Hn. apply not_elem_of_cons in Hn as [Hne Hn]. split; [congruence | done].
Qed.

Lemma absent_never_applied cs : ∀ st requestId,
  s_pending st !! requestId = None →
  requestId ∉ assigned_ids accepts st cs →
  effects_applied accepts requestId st cs = 0%nat.
Proof.
  induction cs as [|c cs IH]; intros st requestId Habs Hn; [done|].
  apply not_assigned_step in Hn as [Hne Hn].
  simpl. rewrite (absent_no_effect st c requestId Habs). simpl.
  apply IH; [|done]. by apply exec_keeps_absent.
Qed.

Lemma unassigned_at_most_once cs : ∀ st requestId,
  requestId ∉ assigned_ids accepts st cs →
  (effects_applied accepts requestId st cs ≤ 1)%nat.
Proof.
  induction cs as [|c cs IH]; intros st requestId Hn; [simpl; lia|].
  apply not_assigned_step in Hn as [Hne Hn]. simpl.
  destruct (applies_effect requestId c (exec accepts st c).2) eqn:Happ.
  - destruct (effect_retires st c requestId Happ) as [Hgone _].
    rewrite (absent_never_applied cs _ requestId Hgone Hn). lia.
  - specialize (IH _ requestId Hn). lia.
Qed.

Lemma fresh_at_most_once cs : ∀ st requestId,
  s_pending st !! requestId = None →
  NoDup (assigned_ids accepts st cs) →
  (effects_applied accepts requestId st cs ≤ 1)%nat.
Proof.
  induction cs as [|c cs IH]; intros st requestId Habs Hnd; [simpl; lia|].
  simpl in *. rewrite (absent_no_effect st c requestId Habs). simpl.
  destruct (assigned_id c (exec accepts st c).2) as [id|] eqn:Hid.
  - apply NoDup_cons in Hnd as [Hfresh Hnd].
    destruct (decide (id = requestId)) as [->|Hne].
    + by apply unassigned_at_most_once.
    + apply IH; [|done]. apply exec_keeps_absent; [done|]. congruence.
  - apply IH; [|done]. apply exec_keeps_absent; [done|]. congruence.
Qed.


(** ** The ledger and the registry *)

(** C1.  No sequence of well-formed dispatches and callbacks, started from
    the freshly deployed vault, makes the balance of any principal negative:
    after every such sequence each balance is a [uint256], at least zero.
    An approved withdrawal that exceeds the balance left by an earlier one
    is no exception: the checked subtraction reverts. *)
Theorem balance_never_negative (cs : list Call) (p : address) :
  wf_calls accepts initial cs →
  0 ≤ balanceOf (run accepts initial cs) p ≤ MAX_UINT256.
Proof.
  intros Hwf. unfold balanceOf. apply balance_range.
  apply reachable_consistent, reachable_run; [constructor | done].
Qed.

(** C10.  In a reachable state every entry of the registry has a requester
    other than the zero address and a strictly positive amount, so the
    callback's not-found test, which reads the stored requester, does not
    take it for absent. *)
Theorem pending_entries_well_formed st (requestId : bytes32) (r : PendingRequest) :
  reachable accepts st →
  s_pending st !! requestId = Some r →
  requester r ≠ address_zero ∧ 0 < amount r
  ∧ requester (pending st requestId) ≠ address_zero.
Proof.
  intros Hreach Hr.
  destruct (live_entry st requestId r Hreach Hr) as (-> & Hreq & Hamt).
  repeat split; [done | lia | done].
Qed.

(** C6.  [requestDeposit] fails with [ZeroAmount] exactly when the value
    sent is zero; [requestWithdrawal] fails with [ZeroAmount] when its
    amount is zero and with [InsufficientBalance] when the amount exceeds
    the caller's balance at that moment; each of these failures leaves the
    whole state, registry and ether included, as it was. *)
Theorem dispatch_validation st (sender : address) (amt : uint256) (assigned : bytes32) :
  reachable accepts st →
  ((exec accepts st (CallRequestDeposit sender amt assigned)).2 = Reverted ZeroAmount
     ↔ amt = 0)
  ∧ (amt = 0 →
       exec accepts st (CallRequestDeposit sender amt assigned) = (st, Reverted ZeroAmount)
       ∧ exec accepts st (CallRequestWithdrawal sender amt assigned)
         = (st, Reverted ZeroAmount))
  ∧ (amt > balance st sender →
       exec accepts st (CallRequestWithdrawal sender amt assigned)
       = (st, Reverted InsufficientBalance)).
Proof.
  intros Hreach.
  pose proof (balance_range st sender (reachable_consistent st Hreach)) as Hb.
  repeat split.
  - simpl. unfold transact. tx_unfold. by case_decide.
  - intros ->. simpl. unfold transact. tx_unfold. done.
  - subst. simpl. unfold transact. tx_unfold. done.
  - subst. simpl. unfold transact. tx_unfold. done.
  - intros Hgt. simpl. unfold transact. tx_unfold.
    rewrite decide_False by lia.
    replace (balance (receive_value 0 st) sender) with (balance st sender) by done.
    by rewrite decide_True.
Qed.

(** C5.  A callback with a non-empty error payload for a pending request,
    deposit or withdrawal alike, emits [RequestFailed] and nothing else,
    moves no ether, leaves every balance as it was and removes the entry
    from the registry. *)
Theorem error_payload_retires st (requestId : bytes32) (r : PendingRequest)
    (response err : bytes) :
  reachable accepts st →
  s_pending st !! requestId = Some r →
  err ≠ [] →
  let result := exec accepts st (CallFulfill requestId response err) in
  result.2 = Success [Emit (RequestFailed err)]
  ∧ s_balances result.1 = s_balances st
  ∧ this_balance result.1 = this_balance st
  ∧ s_pending result.1 = delete requestId (s_pending st).
Proof.
  intros Hreach Hr Herr.
  destruct (live_entry st requestId r Hreach Hr) as (Hp & Hnz & _).
  simpl. unfold transact. rewrite receive_value_zero.
  rewrite fulfill_failed; [done | by rewrite Hp | done].
Qed.

(** C3, as the code has it.  A callback with a success payload that decodes
    to exactly 1, for a pending request of requester [r] and amount [a]:
    a deposit is credited (the balance of [r] grows by exactly [a],
    [DepositRequestFulfilled] is emitted); a withdrawal whose amount the
    balance of [r] still covers, and whose requester takes the ether, is
    debited (the balance of [r] shrinks by exactly [a], [a] is transferred
    to [r], [WithdrawalRequestFulfilled] is emitted).  No other balance
    changes. *)
Theorem approved_request_effects st (requestId : bytes32) (r : PendingRequest)
    (response : bytes) :
  reachable accepts st →
  s_pending st !! requestId = Some r →
  uint256_of_response response = 1 →
  (requestType r = Withdrawal →
     amount r ≤ balance st (requester r) ∧ accepts (requester r) = true) →
  let result := exec accepts st (CallFulfill requestId response []) in
  match requestType r with
  | Deposit =>
      result.2 = Success [Emit (DepositRequestFulfilled requestId (requester r) (amount r))]
      ∧ balance result.1 (requester r) = balance st (requester r) + amount r
  | Withdrawal =>
      result.2 = Success [Transfer (requester r) (amount r);
                          Emit (WithdrawalRequestFulfilled requestId (requester r) (amount r))]
      ∧ balance result.1 (requester r) = balance st (requester r) - amount r
  end
  ∧ ∀ p, p ≠ requester r → balance result.1 p = balance st p.
Proof.
  intros Hreach Hr Hone Hw.
  pose proof (reachable_consistent st Hreach) as Hc.
  destruct (live_entry st requestId r Hreach Hr) as (Hp & Hnz & _).
  simpl. unfold transact. rewrite receive_value_zero.
  destruct (requestType r) eqn:Hty.
  - destruct (escrow_covered st requestId r Hc Hr Hty) as [_ Hfit].
    rewrite (fulfill_deposit_approved st requestId response r Hp) by done.
    rewrite decide_True by done. simpl.
    split; [split; [done | apply balance_write_same] |].
    intros p Hne. by apply balance_write_other.
  - destruct (Hw eq_refl) as [Hle Hacc].
    pose proof (balance_covered st (requester r) Hc) as Hcov.
    rewrite (fulfill_withdrawal_approved st requestId response r Hp) by done.
    rewrite !decide_True by lia. rewrite Hacc. simpl.
    split; [split; [done | apply balance_write_same] |].
    intros p Hne. by apply balance_write_other.
Qed.

(** C4, as the code has it.  A callback with a success payload that decodes
    to anything but 1, for a pending request: no balance changes for either
    kind; a withdrawal pays nothing out ([WithdrawalRequestCancelled]); a
    deposit whose requester takes the ether gets its escrowed amount
    transferred back ([DepositRequestCancelled]), once: the entry is gone
    afterwards, and a further callback for the identifier pays nothing. *)
Theorem rejected_request_effects st (requestId : bytes32) (r : PendingRequest)
    (response : bytes) :
  reachable accepts st →
  s_pending st !! requestId = Some r →
  uint256_of_response response ≠ 1 →
  (requestType r = Deposit → accepts (requester r) = true) →
  let result := exec accepts st (CallFulfill requestId response []) in
  result.2 = Success
    match requestType r with
    | Deposit => [Transfer (requester r) (amount r);
                  Emit (DepositRequestCancelled requestId (requester r) (amount r))]
    | Withdrawal => [Emit (WithdrawalRequestCancelled requestId (requester r) (amount r))]
    end
  ∧ s_balances result.1 = s_balances st
  ∧ s_pending result.1 = delete requestId (s_pending st)
  ∧ ∀ response' err',
      exec accepts result.1 (CallFulfill requestId response' err')
      = (result.1, Success [Emit NoPendingRequest]).
Proof.
  intros Hreach Hr Hone Hd.
  pose proof (reachable_consistent st Hreach) as Hc.
  destruct (live_entry st requestId r Hreach Hr) as (Hp & Hnz & _).
  assert (Hgone : ∀ b e response' err',
    exec accepts (mkVault b (delete requestId (s_pending st)) e)
      (CallFulfill requestId response' err')
    = (mkVault b (delete requestId (s_pending st)) e, Success [Emit NoPendingRequest])).
  { intros b e response' err'. simpl. unfold transact. rewrite receive_value_zero.
    rewrite fulfill_absent; [done|].
    unfold pending. simpl. by rewrite lookup_delete_eq. }
  simpl. unfold transact. rewrite receive_value_zero.
  destruct (requestType r) eqn:Hty.
  - destruct (escrow_covered st requestId r Hc Hr Hty) as [Hcov _].
    rewrite (fulfill_deposit_rejected st requestId response r Hp) by done.
    rewrite decide_True by done. rewrite (Hd eq_refl). simpl.
    repeat split; try done. apply Hgone.
  - rewrite (fulfill_withdrawal_rejected st requestId response r Hp) by done.
    simpl. repeat split; try done. apply Hgone.
Qed.

(** C7, as the code has it.  In a reachable state a callback either commits,
    and then the entry it names is no longer in the registry, or reverts as
    a whole, leaving balances, registry and ether exactly as they were (a
    debit is never applied in part).  It reverts exactly when it cannot
    settle: it approves a withdrawal that the balance no longer covers, or
    it has to pay a requester that does not take the ether; the entry then
    stays pending. *)
Theorem callback_commits_or_reverts st (requestId : bytes32) (response err : bytes) :
  reachable accepts st →
  let result := exec accepts st (CallFulfill requestId response err) in
  match result.2 with
  | Success _ =>
      s_pending result.1 !! requestId = None
      ∧ ¬ cannot_settle accepts st requestId response err
  | Reverted _ =>
      result.1 = st ∧ cannot_settle accepts st requestId response err
  end.
Proof.
  intros Hreach. pose proof (reachable_consistent st Hreach) as Hc.
  simpl. unfold transact. rewrite receive_value_zero.
  destruct (s_pending st !! requestId) as [r|] eqn:Hr.
  2:{ rewrite fulfill_absent by (by rewrite pending_absent). simpl.
      split; [done|]. intros (r & Hr' & _). congruence. }
  destruct (live_entry st requestId r Hreach Hr) as (Hp & Hnz & _).
  assert (Hsame : ∀ r', s_pending st !! requestId = Some r' → r' = r)
    by (intros r' Hr'; congruence).
  destruct err as [|b err].
  2:{ rewrite fulfill_failed by (by rewrite ?Hp). simpl.
      split; [by rewrite lookup_delete_eq|]. intros (r' & _ & Herr & _). done. }
  destruct (requestType r) eqn:Hty;
    destruct (decide (uint256_of_response response = 1)) as [Hone|Hone].
  - destruct (escrow_covered st requestId r Hc Hr Hty) as [_ Hfit].
    rewrite (fulfill_deposit_approved st requestId response r Hp) by done.
    rewrite decide_True by done. simpl.
    split; [by rewrite lookup_delete_eq|].
    intros (r' & Hr' & _ & [(Hw & _) | (_ & Hne & _)]);
      apply Hsame in Hr'; subst r'; congruence.
  - destruct (escrow_covered st requestId r Hc Hr Hty) as [Hcov _].
    rewrite (fulfill_deposit_rejected st requestId response r Hp) by done.
    rewrite decide_True by done.
    destruct (accepts (requester r)) eqn:Hacc; simpl.
    + split; [by rewrite lookup_delete_eq|].
      intros (r' & Hr' & _ & [(Hw & _) | (_ & _ & Hno)]);
        apply Hsame in Hr'; subst r'; congruence.
    + split; [done|]. exists r. split; [done|]. split; [done|]. by right.
  - pose proof (balance_covered st (requester r) Hc) as Hcov.
    rewrite (fulfill_withdrawal_approved st requestId response r Hp) by done.
    destruct (decide (amount r ≤ balance st (requester r))) as [Hle|Hgt].
    + rewrite decide_True by lia.
      destruct (accepts (requester r)) eqn:Hacc; simpl.
      * split; [by rewrite lookup_delete_eq|].
        intros (r' & Hr' & _ & [(_ & _ & [Hover | Hno]) | (Hd & _)]);
          apply Hsame in Hr'; subst r'; try congruence; lia.
      * split; [done|]. exists r. split; [done|]. split; [done|].
        left. repeat split; try done. by right.
    + simpl. split; [done|]. exists r. split; [done|]. split; [done|].
      left. repeat split; try done. left. lia.
  - rewrite (fulfill_withdrawal_rejected st requestId response r Hp) by done. simpl.
    split; [by rewrite lookup_delete_eq|].
    intros (r' & Hr' & _ & [(_ & Hyes & _) | (Hd & _)]);
      apply Hsame in Hr'; subst r'; congruence.
Qed.

(** C2, as the code has it.  Along any sequence of calls in which the
    oracle hands out each request identifier once, at most one approved,
    rejected or errored effect is applied for a given identifier.  A
    callback that finds the entry of a reachable state either commits,
    applying its effect and removing the entry as it does so, or reverts as
    a whole, applying nothing and leaving the entry in place; a callback
    for an identifier without an entry (consumed before, or never issued)
    leaves balances, registry and ether untouched and emits
    [NoPendingRequest] alone. *)
Theorem at_most_one_effect (cs : list Call) (requestId : bytes32) :
  NoDup (assigned_ids accepts initial cs) →
  (effects_applied accepts requestId initial cs ≤ 1)%nat
  ∧ (∀ st response err,
       reachable accepts st → is_Some (s_pending st !! requestId) →
       let result := exec accepts st (CallFulfill requestId response err) in
       match result.2 with
       | Success log =>
           records_effect log = true
           ∧ s_pending result.1 = delete requestId (s_pending st)
       | Reverted _ => result.1 = st
       end)
  ∧ (∀ st response err,
       s_pending st !! requestId = None →
       exec accepts st (CallFulfill requestId response err)
       = (st, Success [Emit NoPendingRequest])).
Proof.
  intros Hnd. split; [|split].
  - by apply fresh_at_most_once.
  - intros st response err Hreach [r Hr].
    destruct (live_entry st requestId r Hreach Hr) as (Hp & Hnz & _).
    simpl. unfold transact. rewrite receive_value_zero.
    destruct err as [|b err].
    2:{ rewrite fulfill_failed by (by rewrite ?Hp). done. }
    destruct (requestType r) eqn:Hty;
      destruct (decide (uint256_of_response response = 1)) as [Hone|Hone].
    + rewrite (fulfill_deposit_approved st requestId response r Hp) by done.
      by case_decide.
    + rewrite (fulfill_deposit_rejected st requestId response r Hp) by done.
      case_decide; [|done]. by destruct (accepts _).
    + rewrite (fulfill_withdrawal_approved st requestId response r Hp) by done.
      case_decide; [|done]. case_decide; [|done]. by destruct (accepts _).
    + by rewrite (fulfill_withdrawal_rejected st requestId response r Hp).
  - intros st response err Habs.
    simpl. unfold transact. rewrite receive_value_zero.
    rewrite fulfill_absent; [done|]. by rewrite pending_absent.
Qed.

(** C8, as the code has it.  Every event a committed call emits either
    carries the identifier, the principal and the amount of the request the
    call is about (the six request, fulfilled and cancelled events), or is
    [RequestFailed], which carries the error payload only, or is
    [NoPendingRequest], which carries nothing; the last two come from
    callbacks. *)
Theorem events_carry_request st (c : Call) (log : list Effect) (e : Event) :
  (exec accepts st c).2 = Success log →
  In (Emit e) log →
  carries e (subject st c)
  ∨ ∃ requestId response err,
      c = CallFulfill requestId response err
      ∧ (e = RequestFailed err ∨ e = NoPendingRequest).
Proof.
  intros Hlog Hin.
  destruct c as [sender value assigned|sender amt assigned|requestId response err].
  - left. simpl in Hlog. unfold transact in Hlog. revert Hlog. tx_unfold.
    case_decide; [done|]. intros [= <-].
    destruct Hin as [Hin|[Hin|[]]]; [done|]. by inversion Hin.
  - left. simpl in Hlog. unfold transact in Hlog. revert Hlog. tx_unfold.
    case_decide; [done|]. case_decide; [done|]. intros [= <-].
    destruct Hin as [Hin|[Hin|[]]]; [done|]. by inversion Hin.
  - simpl in Hlog. unfold transact in Hlog. rewrite receive_value_zero in Hlog.
    destruct (decide (requester (pending st requestId) = address_zero)) as [Hz|Hnz].
    { rewrite fulfill_absent in Hlog by done. injection Hlog as <-.
      destruct Hin as [Hin|[]]. inversion Hin. right. eauto 6. }
    destruct err as [|b err].
    2:{ rewrite fulfill_failed in Hlog by done. injection Hlog as <-.
        destruct Hin as [Hin|[]]. inversion Hin. right. eauto 6. }
    left. revert Hlog.
    destruct (requestType (pending st requestId)) eqn:Hty;
      destruct (decide (uint256_of_response response = 1)) as [Hone|Hone].
    + rewrite (fulfill_deposit_approved st requestId response _ eq_refl) by done.
      case_decide; [|done]. intros [= <-].
      destruct Hin as [Hin|[]]. by inversion Hin.
    + rewrite (fulfill_deposit_rejected st requestId response _ eq_refl) by done.
      case_decide; [|done]. destruct (accepts _); [|done]. intros [= <-].
      destruct Hin as [Hin|[Hin|[]]]; [done|]. by inversion Hin.
    + rewrite (fulfill_withdrawal_approved st requestId response _ eq_refl) by done.
      case_decide; [|done]. case_decide; [|done].
      destruct (accepts _); [|done]. intros [= <-].
      destruct Hin as [Hin|[Hin|[]]]; [done|]. by inversion Hin.
    + rewrite (fulfill_withdrawal_rejected st requestId response _ eq_refl) by done.
      intros [= <-]. destruct Hin as [Hin|[]]. by inversion Hin.
Qed.

End VaultProperties.

(** ** Concrete runs *)

Ltac by_evaluation := vm_compute; repeat split; (done || lia || congruence).

Lemma scenario_reachable (accepts : Z → bool) (cs : list Call) :
  wf_calls accepts initial cs → reachable accepts (run accepts initial cs).
Proof. apply reachable_run. constructor. Qed.

Ltac reached := apply scenario_reachable; by_evaluation.

Lemma balance_never_negative_witness :
  (0 ≤ balanceOf (run everyone_accepts initial
                    (double_withdrawal ++ [CallFulfill 9 approve []])) alice
     ≤ MAX_UINT256)%Z.
Proof.
  apply (balance_never_negative everyone_accepts). by_evaluation.
Defined.

(** The scenario table of the specification, on an amount of 1000. *)

Example scenario_deposit_approved :
  balanceOf (run everyone_accepts initial deposit_approved) alice = 1000%Z.
Proof. by vm_compute. Qed.

Example scenario_deposit_rejected :
  exec everyone_accepts awaiting_deposit (CallFulfill 7 reject [])
  = (initial, Success [Transfer alice 1000; Emit (DepositRequestCancelled 7 alice 1000)]).
Proof. by vm_compute. Qed.

Example scenario_withdrawal_approved :
  (exec everyone_accepts
     (run everyone_accepts initial (deposit_approved ++ [CallRequestWithdrawal alice 1000 8]))
     (CallFulfill 8 approve []))
  = (mkVault {[alice := 0%Z]} ∅ 0,
     Success [Transfer alice 1000; Emit (WithdrawalRequestFulfilled 8 alice 1000)]).
Proof. by vm_compute. Qed.

Example scenario_withdrawal_rejected :
  (exec everyone_accepts
     (run everyone_accepts initial (deposit_approved ++ [CallRequestWithdrawal alice 1000 8]))
     (CallFulfill 8 reject []))
  = (run everyone_accepts initial deposit_approved,
     Success [Emit (WithdrawalRequestCancelled 8 alice 1000)]).
Proof. by vm_compute. Qed.

Example scenario_unknown_request :
  exec everyone_accepts awaiting_deposit (CallFulfill 12 approve [])
  = (awaiting_deposit, Success [Emit NoPendingRequest]).
Proof. by vm_compute. Qed.

Example scenario_withdrawal_error :
  (exec everyone_accepts
     (run everyone_accepts initial (deposit_approved ++ [CallRequestWithdrawal alice 1000 8]))
     (CallFulfill 8 [] failure))
  = (run everyone_accepts initial deposit_approved, Success [Emit (RequestFailed failure)]).
Proof. by vm_compute. Qed.

Lemma pending_entries_well_formed_witness :
  requester (mkPendingRequest alice 1000 Deposit) ≠ address_zero
  ∧ (0 < amount (mkPendingRequest alice 1000 Deposit))%Z
  ∧ requester (pending awaiting_deposit 7) ≠ address_zero.
Proof.
  apply (pending_entries_well_formed everyone_accepts awaiting_deposit 7).
  - reached.
  - by vm_compute.
Defined.

Lemma dispatch_validation_witness :
  exec everyone_accepts awaiting_deposit (CallRequestDeposit alice 0 11)
  = (awaiting_deposit, Reverted ZeroAmount)
  ∧ exec everyone_accepts awaiting_deposit (CallRequestWithdrawal alice 0 11)
    = (awaiting_deposit, Reverted ZeroAmount)
  ∧ exec everyone_accepts awaiting_deposit (CallRequestWithdrawal alice 1 11)
    = (awaiting_deposit, Reverted InsufficientBalance).
Proof.
  split; [|split].
  - apply (dispatch_validation everyone_accepts awaiting_deposit alice 0 11).
    + reached.
    + done.
  - apply (dispatch_validation everyone_accepts awaiting_deposit alice 0 11).
    + reached.
    + done.
  - apply (dispatch_validation everyone_accepts awaiting_deposit alice 1 11).
    + reached.
    + by vm_compute.
Defined.

Lemma error_payload_retires_witness :
  (exec everyone_accepts awaiting_withdrawal (CallFulfill 8 [] failure)).2
  = Success [Emit (RequestFailed failure)]
  ∧ s_balances (exec everyone_accepts awaiting_withdrawal (CallFulfill 8 [] failure)).1
    = s_balances awaiting_withdrawal
  ∧ this_balance (exec everyone_accepts awaiting_withdrawal (CallFulfill 8 [] failure)).1
    = this_balance awaiting_withdrawal
  ∧ s_pending (exec everyone_accepts awaiting_withdrawal (CallFulfill 8 [] failure)).1
    = delete 8%Z (s_pending awaiting_withdrawal).
Proof.
  apply (error_payload_retires everyone_accepts awaiting_withdrawal 8
           (mkPendingRequest alice 600 Withdrawal) [] failure).
  - reached.
  - by vm_compute.
  - done.
Defined.

Lemma at_most_one_effect_witness :
  (effects_applied everyone_accepts 7 initial
     (deposit_approved ++ [CallFulfill 7 approve []; CallFulfill 7 [] failure]) ≤ 1)%nat.
Proof.
  apply (at_most_one_effect everyone_accepts
           (deposit_approved ++ [CallFulfill 7 approve []; CallFulfill 7 [] failure]) 7).
  vm_compute. apply NoDup_singleton.
Defined.

(** An approved withdrawal that the balance no longer covers: the callback
    reverts; the balance is not reduced by the amount, nothing is paid and
    nothing is emitted. *)
Lemma approved_withdrawal_counterexample :
  reachable everyone_accepts overdrawn
  ∧ s_pending overdrawn !! 9%Z = Some (mkPendingRequest alice 600 Withdrawal)
  ∧ uint256_of_response approve = 1%Z
  ∧ exec everyone_accepts overdrawn (CallFulfill 9 approve [])
    = (overdrawn, Reverted ArithmeticPanic)
  ∧ balance (exec everyone_accepts overdrawn (CallFulfill 9 approve [])).1 alice
    ≠ (balance overdrawn alice - 600)%Z.
Proof.
  split; [reached|]. by_evaluation.
Qed.

Lemma approved_request_effects_witness :
  ((exec everyone_accepts awaiting_withdrawal (CallFulfill 8 approve [])).2
   = Success [Transfer alice 600; Emit (WithdrawalRequestFulfilled 8 alice 600)]
   ∧ balance (exec everyone_accepts awaiting_withdrawal (CallFulfill 8 approve [])).1 alice
     = (balance awaiting_withdrawal alice - 600)%Z)
  ∧ ∀ p, p ≠ alice →
      balance (exec everyone_accepts awaiting_withdrawal (CallFulfill 8 approve [])).1 p
      = balance awaiting_withdrawal p.
Proof.
  apply (approved_request_effects everyone_accepts awaiting_withdrawal 8
           (mkPendingRequest alice 600 Withdrawal) approve).
  - reached.
  - by vm_compute.
  - by vm_compute.
  - intros _. by_evaluation.
Defined.

(** A refused deposit of a requester that does not take ether: the callback
    reverts, the escrowed amount is not returned and the entry stays. *)
Lemma rejected_deposit_counterexample :
  reachable accounts_accept sealed_deposit
  ∧ s_pending sealed_deposit !! 7%Z = Some (mkPendingRequest sealed_contract 1000 Deposit)
  ∧ uint256_of_response reject ≠ 1%Z
  ∧ exec accounts_accept sealed_deposit (CallFulfill 7 reject [])
    = (sealed_deposit, Reverted TransferFailed).
Proof.
  split; [reached|]. by_evaluation.
Qed.

Lemma rejected_request_effects_witness :
  (exec everyone_accepts awaiting_deposit (CallFulfill 7 reject [])).2
  = Success [Transfer alice 1000; Emit (DepositRequestCancelled 7 alice 1000)]
  ∧ s_balances (exec everyone_accepts awaiting_deposit (CallFulfill 7 reject [])).1
    = s_balances awaiting_deposit
  ∧ s_pending (exec everyone_accepts awaiting_deposit (CallFulfill 7 reject [])).1
    = delete 7%Z (s_pending awaiting_deposit)
  ∧ ∀ response' err',
      exec everyone_accepts
        (exec everyone_accepts awaiting_deposit (CallFulfill 7 reject [])).1
        (CallFulfill 7 response' err')
      = ((exec everyone_accepts awaiting_deposit (CallFulfill 7 reject [])).1,
         Success [Emit NoPendingRequest]).
Proof.
  apply (rejected_request_effects everyone_accepts awaiting_deposit 7
           (mkPendingRequest alice 1000 Deposit) reject).
  - reached.
  - by vm_compute.
  - by vm_compute.
  - done.
Defined.

(** The first callback that names the second withdrawal does not remove its
    entry, and a second callback for the same identifier finds it again. *)
Lemma first_callback_counterexample :
  reachable everyone_accepts overdrawn
  ∧ is_Some (s_pending overdrawn !! 9%Z)
  ∧ is_Some (s_pending (run everyone_accepts overdrawn [CallFulfill 9 approve []]) !! 9%Z)
  ∧ (exec everyone_accepts (run everyone_accepts overdrawn [CallFulfill 9 approve []])
       (CallFulfill 9 approve [])).2
    ≠ Success [Emit NoPendingRequest].
Proof.
  split; [reached|].
  vm_compute. repeat split; try (by eexists). discriminate.
Qed.

(** The callback that approves the second withdrawal throws, and the
    request it names is still pending when it has run. *)
Lemma callback_reverts_counterexample :
  reachable everyone_accepts overdrawn
  ∧ (exec everyone_accepts overdrawn (CallFulfill 9 approve [])).2
    = Reverted ArithmeticPanic
  ∧ s_pending (exec everyone_accepts overdrawn (CallFulfill 9 approve [])).1 !! 9%Z
    = Some (mkPendingRequest alice 600 Withdrawal).
Proof.
  split; [reached|]. by_evaluation.
Qed.

Lemma callback_commits_or_reverts_witness :
  (exec everyone_accepts overdrawn (CallFulfill 9 approve [])).1 = overdrawn
  ∧ cannot_settle everyone_accepts overdrawn 9 approve [].
Proof.
  assert (Hreach : reachable everyone_accepts overdrawn) by reached.
  pose proof (callback_commits_or_reverts everyone_accepts overdrawn 9 approve []
                Hreach) as H.
  assert (Hrev : exec everyone_accepts overdrawn (CallFulfill 9 approve [])
                 = (overdrawn, Reverted ArithmeticPanic)) by (by vm_compute).
  cbv zeta in H. rewrite Hrev in H. rewrite Hrev. exact H.
Defined.

(** The event of a failed request names neither the request, nor the
    principal, nor the amount. *)
Lemma request_failed_counterexample :
  (exec everyone_accepts awaiting_deposit (CallFulfill 7 [] failure)).2
  = Success [Emit (RequestFailed failure)]
  ∧ event_requestId (RequestFailed failure) = None
  ∧ event_requester (RequestFailed failure) = None
  ∧ event_amount (RequestFailed failure) = None
  ∧ ¬ carries (RequestFailed failure)
        (subject awaiting_deposit (CallFulfill 7 [] failure)).
Proof.
  repeat split; try (by vm_compute).
  intros (H & _). discriminate H.
Qed.

Lemma events_carry_request_witness :
  carries (DepositRequestFulfilled 7 alice 1000)
    (subject awaiting_deposit (CallFulfill 7 approve []))
  ∨ ∃ requestId response err,
      CallFulfill 7 approve [] = CallFulfill requestId response err
      ∧ (DepositRequestFulfilled 7 alice 1000 = RequestFailed err
         ∨ DepositRequestFulfilled 7 alice 1000 = NoPendingRequest).
Proof.
  apply (events_carry_request everyone_accepts awaiting_deposit (CallFulfill 7 approve [])
           [Emit (DepositRequestFulfilled 7 alice 1000)]).
  - by vm_compute.
  - by left.
Defined.

(** * Properties of the checker script *)

Section ScriptProperties.
Variable Number_of_string : string → option Z.
Variable coerced_positive : Json → Exception + bool.

Local Open Scope string_scope.

Lemma generateRandomSequence_returns w p :
  generateRandomSequence w p = Returned (sequence_at w (draws p)) (drawn 5 p).
Proof. reflexivity. Qed.

Lemma encodings_differ : encodeUint256 1 ≠ encodeUint256 0.
Proof. by vm_compute. Qed.

Lemma is_string_true v s : is_string v s = true ↔ v = JStr s.
Proof.
  destruct v; simpl; try (split; [done | discriminate]).
  rewrite bool_decide_eq_true. split; [by intros -> | by intros [= ->]].
Qed.

Lemma is_null_true v : is_null v = true ↔ v = JNull.
Proof. by destruct v. Qed.

Lemma returned_encoding {A} (a b : A) p :
  returns (Returned a p) b ↔ a = b.
Proof.
  split; [by intros [p' [= -> _]] | intros ->; by exists p].
Qed.

(** [checkDeposit] as a function of the two responses. *)
Lemma checkDeposit_run address w p :
  let registration := register_request (apiKey w) address in
  let read := risk_request (apiKey w) address in
  checkDeposit address w p =
    if is_number (status (http w registration)) 201 then
      if is_number (status (http w read)) 200 then
        match prop (data (http w read)) "risk" with
        | Some v =>
            Returned (encodeUint256 (if is_string v "Low" then 1 else 0))
              (sent read (sent registration p))
        | None => Thrown JsTypeError (sent read (sent registration p))
        end
      else Thrown (status_error (http w read)) (sent read (sent registration p))
    else Thrown (status_error (http w registration)) (sent registration p).
Proof.
  cbv zeta. unfold checkDeposit, mbind, Script_bind, secrets_apiKey, makeHttpRequest.
  destruct (is_number (status (http w (register_request (apiKey w) address))) 201);
    simpl; [|done].
  destruct (is_number (status (http w (risk_request (apiKey w) address))) 200);
    simpl; [|done].
  unfold get. by destruct (prop _ "risk").
Qed.

(** [checkWithdrawal] as a function of the three responses. *)
Lemma checkWithdrawal_run address amount w p :
  let registration := withdrawal_registration w (draws p) address amount in
  let att := http w registration in
  let p1 := sent registration (drawn 5 (drawn 5 p)) in
  checkWithdrawal coerced_positive address amount w p =
    if is_number (status att) 202 then
      match prop (data att) "externalId" with
      | None => Thrown JsTypeError p1
      | Some id =>
          let exposures := http w (exposures_request (apiKey w) id) in
          let alerts := http w (alerts_request (apiKey w) id) in
          let p2 := sent (exposures_request (apiKey w) id) p1 in
          let p3 := sent (alerts_request (apiKey w) id) p2 in
          if is_number (status exposures) 200 then
            match prop (data exposures) "direct" with
            | None => Thrown JsTypeError p2
            | Some direct =>
                match prop direct "name" with
                | None => Thrown JsTypeError p2
                | Some name =>
                    if is_number (status alerts) 200 then
                      match prop (data alerts) "alerts" with
                      | None => Thrown JsTypeError p3
                      | Some list =>
                          match prop list "length" with
                          | None => Thrown JsTypeError p3
                          | Some len =>
                              match greater_than_zero coerced_positive len with
                              | inl e => Thrown e p3
                              | inr hasAlerts =>
                                  Returned
                                    (encodeUint256
                                       (if is_null name && negb hasAlerts then 1 else 0))
                                    p3
                              end
                          end
                      end
                    else Thrown (status_error alerts) p3
                end
            end
          else Thrown (status_error exposures) p2
      end
    else Thrown (status_error att) p1.
Proof.
  cbv zeta. unfold checkWithdrawal, mbind, Script_bind.
  rewrite (generateRandomSequence_returns w p).
  rewrite (generateRandomSequence_returns w (drawn 5 p)).
  unfold current_time, secrets_apiKey, makeHttpRequest.
  change (draws (drawn 5 p)) with (5 + draws p)%nat.
  fold (withdrawal_registration w (draws p) address amount).
  destruct (is_number
              (status (http w (withdrawal_registration w (draws p) address amount))) 202);
    simpl; [|done].
  unfold get at 1. destruct (prop _ "externalId") as [id|]; simpl; [|done].
  destruct (is_number (status (http w (exposures_request (apiKey w) id))) 200);
    simpl; [|done].
  unfold get at 1. destruct (prop _ "direct") as [direct|]; simpl; [|done].
  unfold get at 1. destruct (prop direct "name") as [name|]; simpl; [|done].
  destruct (is_number (status (http w (alerts_request (apiKey w) id))) 200);
    simpl; [|done].
  unfold get at 1. destruct (prop _ "alerts") as [list|]; simpl; [|done].
  unfold get at 1. destruct (prop list "length") as [len|]; simpl; [|done].
  unfold gt_zero. destruct (greater_than_zero coerced_positive len) as [e|b]; simpl; [done|].
  by rewrite negb_involutive.
Qed.

Lemma calls_sent_twice a b p : calls (sent b (sent a p)) = (calls p ++ [a; b])%list.
Proof. unfold sent. simpl. by rewrite <- app_assoc. Qed.

Lemma calls_sent_thrice a b c p :
  calls (sent c (sent b (sent a p))) = (calls p ++ [a; b; c])%list.
Proof. unfold sent. simpl. by rewrite <- !app_assoc. Qed.

Ltac thrown_case refute :=
  split; [split; [by intros [? ?] | refute]
         | split; [by intros ? [? ?] | intros _; by do 2 eexists]].

Lemma deposit_verdict address w p :
  let reg := http w (register_request (apiKey w) address) in
  let risk := http w (risk_request (apiKey w) address) in
  (returns (checkDeposit address w p) (encodeUint256 1)
     ↔ is_number (status reg) 201 = true ∧ is_number (status risk) 200 = true
       ∧ reports_low_risk risk)
  ∧ (∀ b, returns (checkDeposit address w p) b →
       b = encodeUint256 1 ∨ b = encodeUint256 0)
  ∧ (is_number (status reg) 201 = false ∨ is_number (status risk) 200 = false →
       throws (checkDeposit address w p)).
Proof.
  cbv zeta. rewrite checkDeposit_run. cbv zeta. unfold reports_low_risk.
  destruct (is_number (status (http w (register_request (apiKey w) address))) 201).
  2:{ thrown_case ltac:(by intros (? & _)). }
  destruct (is_number (status (http w (risk_request (apiKey w) address))) 200).
  2:{ thrown_case ltac:(by intros (_ & ? & _)). }
  destruct (prop (data (http w (risk_request (apiKey w) address))) "risk") as [v|].
  2:{ thrown_case ltac:(by intros (_ & _ & ?)). }
  split; [|split].
  - rewrite returned_encoding. destruct (is_string v "Low") eqn:Hv.
    + apply is_string_true in Hv as ->. by repeat split.
    + split.
      * intros Henc. by destruct encodings_differ.
      * intros (_ & _ & [= ->]). by vm_compute in Hv.
  - intros b Hb. apply returned_encoding in Hb as <-.
    destruct (is_string v "Low"); [by left | by right].
  - by intros [?|?].
Qed.

Lemma deposit_calls address w p :
  calls_made (checkDeposit address w p) = (calls p ++ deposit_protocol w address)%list.
Proof.
  rewrite checkDeposit_run. cbv zeta. unfold deposit_protocol.
  destruct (is_number (status (http w (register_request (apiKey w) address))) 201);
    [|done].
  destruct (is_number (status (http w (risk_request (apiKey w) address))) 200);
    [|apply calls_sent_twice].
  destruct (prop _ "risk"); apply calls_sent_twice.
Qed.

Lemma withdrawal_verdict address amount w p :
  let att := http w (withdrawal_registration w (draws p) address amount) in
  let exposures id := http w (exposures_request (apiKey w) id) in
  let alerts id := http w (alerts_request (apiKey w) id) in
  let run := checkWithdrawal coerced_positive address amount w p in
  (returns run (encodeUint256 1)
     ↔ is_number (status att) 202 = true
       ∧ ∃ id, prop (data att) "externalId" = Some id
           ∧ is_number (status (exposures id)) 200 = true
           ∧ is_number (status (alerts id)) 200 = true
           ∧ reports_no_direct_exposure (exposures id)
           ∧ reports_no_alerts coerced_positive (alerts id))
  ∧ (∀ b, returns run b → b = encodeUint256 1 ∨ b = encodeUint256 0)
  ∧ (is_number (status att) 202 = false
     ∨ (∃ id, prop (data att) "externalId" = Some id
          ∧ (is_number (status (exposures id)) 200 = false
             ∨ is_number (status (alerts id)) 200 = false)) →
       throws run).
Proof.
  cbv zeta. rewrite checkWithdrawal_run. cbv zeta.
  unfold reports_no_direct_exposure, reports_no_alerts.
  set (att := http w (withdrawal_registration w (draws p) address amount)).
  destruct (is_number (status att) 202).
  2:{ thrown_case ltac:(by intros (? & _)). }
  destruct (prop (data att) "externalId") as [id|].
  2:{ thrown_case ltac:(by intros (_ & ? & ? & _)). }
  set (exposures := http w (exposures_request (apiKey w) id)).
  set (alerts := http w (alerts_request (apiKey w) id)).
  assert (Hid : ∀ id', Some id = Some id' → id' = id) by (by intros ? [= ->]).
  destruct (is_number (status exposures) 200) eqn:Hexp.
  2:{ thrown_case ltac:(intros (_ & id' & Hid' & He & _); apply Hid in Hid';
                        subst id'; fold exposures in He; congruence). }
  destruct (prop (data exposures) "direct") as [direct|] eqn:Hdirect.
  2:{ thrown_case ltac:(intros (_ & id' & Hid' & _ & _ & (d & Hd & _) & _);
                        apply Hid in Hid'; subst id'; fold exposures in Hd;
                        congruence). }
  destruct (prop direct "name") as [name|] eqn:Hname.
  2:{ thrown_case ltac:(intros (_ & id' & Hid' & _ & _ & (d & Hd & Hn) & _);
                        apply Hid in Hid'; subst id'; fold exposures in Hd;
                        congruence). }
  destruct (is_number (status alerts) 200) eqn:Hal.
  2:{ thrown_case ltac:(intros (_ & id' & Hid' & _ & Ha & _); apply Hid in Hid';
                        subst id'; fold alerts in Ha; congruence). }
  destruct (prop (data alerts) "alerts") as [list|] eqn:Hlist.
  2:{ thrown_case ltac:(intros (_ & id' & Hid' & _ & _ & _ & (l & n & Hl & _));
                        apply Hid in Hid'; subst id'; fold alerts in Hl;
                        congruence). }
  destruct (prop list "length") as [len|] eqn:Hlen.
  2:{ thrown_case ltac:(intros (_ & id' & Hid' & _ & _ & _ & (l & n & Hl & Hn & _));
                        apply Hid in Hid'; subst id'; fold alerts in Hl;
                        congruence). }
  destruct (greater_than_zero coerced_positive len) as [e|hasAlerts] eqn:Hgt.
  { thrown_case ltac:(intros (_ & id' & Hid' & _ & _ & _ & (l & n & Hl & Hn & Hz));
                      apply Hid in Hid'; subst id'; fold alerts in Hl;
                      congruence). }
  split; [|split].
  - rewrite returned_encoding. split.
    + intros Henc.
      destruct (is_null name) eqn:Hnull; destruct hasAlerts; simpl in Henc;
        try (by destruct encodings_differ).
      apply is_null_true in Hnull as ->.
      split; [done|]. exists id. repeat split; try done.
      * by exists direct.
      * by exists list, len.
    + intros (_ & id' & Hid' & _ & _ & (d & Hd & Hn) & (l & n & Hl & Hln & Hz)).
      apply Hid in Hid'. subst id'. fold exposures in Hd. fold alerts in Hl.
      assert (d = direct) as -> by congruence.
      assert (name = JNull) as -> by congruence.
      assert (l = list) as -> by congruence.
      assert (n = len) as -> by congruence.
      assert (hasAlerts = false) as -> by congruence.
      done.
  - intros b Hb. apply returned_encoding in Hb as <-.
    destruct (is_null name && negb hasAlerts); [by left | by right].
  - intros [?|(id' & Hid' & [He|Ha])]; [done | |];
      apply Hid in Hid'; subst id'.
    + fold exposures in He. congruence.
    + fold alerts in Ha. congruence.
Qed.

Lemma withdrawal_calls address amount w p :
  calls_made (checkWithdrawal coerced_positive address amount w p)
  = (calls p ++ withdrawal_protocol w (draws p) address amount)%list.
Proof.
  rewrite checkWithdrawal_run. cbv zeta. unfold withdrawal_protocol.
  set (registration := withdrawal_registration w (draws p) address amount).
  assert (Hone : ∀ c : Completion (list Byte.byte),
    calls_made c = calls (sent registration (drawn 5 (drawn 5 p))) →
    calls_made c = (calls p ++ [registration])%list) by (by intros c ->).
  destruct (is_number (status (http w registration)) 202); [|by apply Hone].
  destruct (prop (data (http w registration)) "externalId") as [id|];
    [|by apply Hone].
  cbv zeta. clear Hone.
  set (exposures := exposures_request (apiKey w) id).
  set (alerts := alerts_request (apiKey w) id).
  assert (Htwo : ∀ c : Completion (list Byte.byte),
    calls_made c = calls (sent exposures (sent registration (drawn 5 (drawn 5 p)))) →
    calls_made c = (calls p ++ [registration; exposures])%list).
  { intros c ->. by rewrite calls_sent_twice. }
  assert (Hthree : ∀ c : Completion (list Byte.byte),
    calls_made c
    = calls (sent alerts (sent exposures (sent registration (drawn 5 (drawn 5 p))))) →
    calls_made c = (calls p ++ [registration; exposures; alerts])%list).
  { intros c ->. by rewrite calls_sent_thrice. }
  destruct (is_number (status (http w exposures)) 200); [|by apply Htwo].
  destruct (prop (data (http w exposures)) "direct") as [direct|]; [|by apply Htwo].
  destruct (prop direct "name") as [name|]; [|by apply Htwo].
  apply Hthree.
  destruct (is_number (status (http w alerts)) 200); [|done].
  destruct (prop _ "alerts") as [list|]; [|done].
  destruct (prop list "length") as [len|]; [|done].
  by destruct (greater_than_zero coerced_positive len).
Qed.

(** C9.  Given the responses its calls receive, the script returns the
    32-byte encoding of 1 exactly when, for a deposit, the two calls answer
    201 and 200 and the risk read reports "Low", and, for a withdrawal, the
    three calls answer 202, 200 and 200 and the exposure and alert reads
    report no direct exposure and no alerts; whatever else it returns is the
    encoding of 0; it throws when one of these calls answers another
    status, as it does without an API key or for another request type; and
    the requests it sends are those of the call protocol of the kind, in
    that order, each sent only after the one before was answered as
    expected. *)
Theorem checker_verdict (w : World) (p : Progress) :
  let run := main Number_of_string coerced_positive w p in
  let key := apiKey w in
  if bool_decide (key = Some "") then throws run ∧ calls_made run = calls p
  else
    match Number Number_of_string (arg w 0) with
    | Some 0%Z =>
        let reg := http w (register_request key (arg w 1)) in
        let risk := http w (risk_request key (arg w 1)) in
        (returns run (encodeUint256 1)
           ↔ is_number (status reg) 201 = true ∧ is_number (status risk) 200 = true
             ∧ reports_low_risk risk)
        ∧ (∀ b, returns run b → b = encodeUint256 1 ∨ b = encodeUint256 0)
        ∧ (is_number (status reg) 201 = false ∨ is_number (status risk) 200 = false →
             throws run)
        ∧ calls_made run = (calls p ++ deposit_protocol w (arg w 1))%list
    | Some 1%Z =>
        let att := http w (withdrawal_registration w (draws p) (arg w 1) (arg w 2)) in
        let exposures id := http w (exposures_request key id) in
        let alerts id := http w (alerts_request key id) in
        (returns run (encodeUint256 1)
           ↔ is_number (status att) 202 = true
             ∧ ∃ id, prop (data att) "externalId" = Some id
                 ∧ is_number (status (exposures id)) 200 = true
                 ∧ is_number (status (alerts id)) 200 = true
                 ∧ reports_no_direct_exposure (exposures id)
                 ∧ reports_no_alerts coerced_positive (alerts id))
        ∧ (∀ b, returns run b → b = encodeUint256 1 ∨ b = encodeUint256 0)
        ∧ (is_number (status att) 202 = false
           ∨ (∃ id, prop (data att) "externalId" = Some id
                ∧ (is_number (status (exposures id)) 200 = false
                   ∨ is_number (status (alerts id)) 200 = false)) →
             throws run)
        ∧ calls_made run
          = (calls p ++ withdrawal_protocol w (draws p) (arg w 1) (arg w 2))%list
    | _ => throws run ∧ calls_made run = calls p
    end.
Proof.
  cbv zeta. unfold main, mbind, Script_bind, secrets_apiKey.
  destruct (bool_decide (apiKey w = Some "")); [split; [by do 2 eexists | done]|].
  destruct (Number Number_of_string (arg w 0)) as [[|[q|q|]|q]|];
    try (split; [by do 2 eexists | done]).
  - pose proof (deposit_verdict (arg w 1) w p) as (H1 & H2 & H3).
    pose proof (deposit_calls (arg w 1) w p) as H4. exact (conj H1 (conj H2 (conj H3 H4))).
  - pose proof (withdrawal_verdict (arg w 1) (arg w 2) w p) as (H1 & H2 & H3).
    pose proof (withdrawal_calls (arg w 1) (arg w 2) w p) as H4.
    exact (conj H1 (conj H2 (conj H3 H4))).
Qed.

End ScriptProperties.

Lemma checker_verdict_witness :
  returns (main sample_Number sample_positive deposit_world start) (encodeUint256 1)
  ∧ returns (main sample_Number sample_positive withdrawal_world start)
      (encodeUint256 1).
Proof.
  split.
  - pose proof (checker_verdict sample_Number sample_positive deposit_world start) as H.
    cbv zeta in H.
    change (bool_decide (apiKey deposit_world = Some "")) with false in H.
    change (Number sample_Number (arg deposit_world 0)) with (Some 0%Z) in H.
    cbv iota in H. destruct H as [[_ H] _]. apply H.
    by_evaluation.
  - pose proof (checker_verdict sample_Number sample_positive withdrawal_world start) as H.
    cbv zeta in H.
    change (bool_decide (apiKey withdrawal_world = Some "")) with false in H.
    change (Number sample_Number (arg withdrawal_world 0)) with (Some 1%Z) in H.
    cbv iota in H. destruct H as [[_ H] _]. apply H.
    split; [by vm_compute|].
    exists (JStr "e1"). repeat split; try (by vm_compute).
    + exists (JObj [("name", JNull)]). by vm_compute.
    + exists (JArr []), (JNum 0). by vm_compute.
Defined.

(** * Further properties of the vault *)

Section VaultFlows.
Variable accepts : Z → bool.

Local Open Scope Z_scope.

(** ** Every way a call can end *)

Lemma callback_outcomes st requestId response err :
  callback_outcome st requestId response err
    (exec accepts st (CallFulfill requestId response err)).
Proof.
  simpl. unfold transact. rewrite receive_value_zero.
  destruct (decide (requester (pending st requestId) = address_zero)) as [Hz|Hnz].
  { rewrite fulfill_absent by done. by constructor. }
  destruct err as [|b err].
  2:{ rewrite fulfill_failed by done. by constructor. }
  destruct (requestType (pending st requestId)) eqn:Hty;
    destruct (decide (uint256_of_response response = 1)) as [Hone|Hone].
  - rewrite (fulfill_deposit_approved accepts st requestId response _ eq_refl) by done.
    case_decide; [by apply outcome_credited | by constructor].
  - rewrite (fulfill_deposit_rejected accepts st requestId response _ eq_refl) by done.
    case_decide; [|by constructor].
    destruct (accepts _); [by apply outcome_refunded | by constructor].
  - rewrite (fulfill_withdrawal_approved accepts st requestId response _ eq_refl) by done.
    case_decide; [|by constructor]. case_decide; [|by constructor].
    destruct (accepts _); [by apply outcome_paid | by constructor].
  - rewrite (fulfill_withdrawal_rejected accepts st requestId response _ eq_refl) by done.
    by apply outcome_cancelled.
Qed.

Lemma deposit_outcome st sender value assigned :
  exec accepts st (CallRequestDeposit sender value assigned)
  = if decide (value = 0) then (st, Reverted ZeroAmount)
    else (mkVault (s_balances st)
            (<[assigned := mkPendingRequest sender value Deposit]> (s_pending st))
            (this_balance st + value),
          Success [OracleRequest [ArgLiteral DEPOSIT_ACTION_ID; ArgHexAddress sender]
                     assigned;
                   Emit (DepositRequest assigned sender value)]).
Proof. simpl. unfold transact. tx_unfold. by case_decide. Qed.

Lemma withdrawal_outcome st sender amt assigned :
  exec accepts st (CallRequestWithdrawal sender amt assigned)
  = if decide (amt = 0) then (st, Reverted ZeroAmount)
    else if decide (amt > balance st sender) then (st, Reverted InsufficientBalance)
    else (mkVault (s_balances st)
            (<[assigned := mkPendingRequest sender amt Withdrawal]> (s_pending st))
            (this_balance st),
          Success [OracleRequest
                     [ArgLiteral WITHDRAWAL_ACTION_ID; ArgHexAddress sender;
                      ArgDecimal amt] assigned;
                   Emit (WithdrawalRequest assigned sender amt)]).
Proof.
  simpl. unfold transact. tx_unfold. case_decide; [done|].
  replace (balance (receive_value 0 st) sender) with (balance st sender) by done.
  case_decide; [done|]. simpl. do 2 f_equal. lia.
Qed.

Ltac callback_split st requestId response err :=
  let Hout := fresh "Hout" in
  let result := fresh "result" in
  pose proof (callback_outcomes st requestId response err) as Hout;
  remember (exec accepts st (CallFulfill requestId response err)) as result;
  destruct Hout.

(** ** Ether in and out *)


Lemma run_cons st c cs :
  run accepts st (c :: cs) = run accepts (exec accepts st c).1 cs.
Proof. done. Qed.


Lemma run_consistent cs : ∀ st,
  consistent st → wf_calls accepts st cs → consistent (run accepts st cs).
Proof.
  induction cs as [|c cs IH]; intros st Hc Hwf; [done|].
  destruct Hwf as [Hwc Hwf]. rewrite run_cons. apply IH; [|done].
  by apply exec_consistent.
Qed.


(** X2.  In every reachable state the vault is solvent: the ether it holds
    covers the sum of all balances together with the sum of all deposits
    still in escrow; in particular it covers each single balance. *)
Theorem vault_solvent st :
  reachable accepts st →
  total_balances st + total_escrow st ≤ this_balance st
  ∧ 0 ≤ total_balances st ∧ 0 ≤ total_escrow st
  ∧ ∀ p, balance st p ≤ this_balance st.
Proof.
  intros Hreach. pose proof (reachable_consistent accepts st Hreach) as Hc.
  destruct (totals_nonneg st Hc) as [Hb He].
  repeat split; try done.
  - apply (ether_covers st Hc).
  - intros p. by apply balance_covered.
Qed.

(** ** What one principal puts in and gets out *)

Lemma escrow_for_nonneg st who :
  consistent st → ∀ k r, s_pending st !! k = Some r → 0 ≤ escrow_for who r.
Proof.
  intros Hc k r Hk. unfold escrow_for. case_decide; [|lia].
  by apply (escrow_nonneg st Hc k).
Qed.

Lemma escrow_for_retire st who requestId :
  consistent st → requester (pending st requestId) ≠ address_zero →
  map_total (escrow_for who) (delete requestId (s_pending st))
  = map_total (escrow_for who) (s_pending st) - escrow_for who (pending st requestId).
Proof.
  intros Hc Hnz. pose proof (found_is_entry st requestId Hnz) as Hentry.
  rewrite (map_total_delete (escrow_for who) _ requestId _ Hentry). lia.
Qed.

Lemma escrow_for_register st who requestId r :
  consistent st →
  map_total (escrow_for who) (<[requestId := r]> (s_pending st))
  ≤ escrow_for who r + map_total (escrow_for who) (s_pending st).
Proof.
  intros Hc. rewrite map_total_insert.
  pose proof (map_total_delete_le (escrow_for who) (s_pending st) requestId
                (escrow_for_nonneg st who Hc)). lia.
Qed.

Lemma balance_write st user v p e who :
  balance (mkVault (<[user := v]> (s_balances st)) p e) who
  = if decide (who = user) then v else balance st who.
Proof.
  case_decide as Hw.
  - subst. apply balance_write_same.
  - by apply balance_write_other.
Qed.

Lemma exec_holdings st c who :
  consistent st → wf_call st c →
  balance (exec accepts st c).1 who
  + map_total (escrow_for who) (s_pending (exec accepts st c).1)
  + transferred_to who (log_of (exec accepts st c).2)
  ≤ balance st who + map_total (escrow_for who) (s_pending st)
    + deposited_by who c (exec accepts st c).2.
Proof.
  intros Hc Hwf.
  destruct c as [sender value assigned|sender amt assigned|requestId response err].
  - rewrite deposit_outcome. case_decide; simpl; [lia|].
    pose proof (escrow_for_register st who assigned
                  (mkPendingRequest sender value Deposit) Hc) as Hreg.
    change (escrow_for who (mkPendingRequest sender value Deposit))
      with (if decide (sender = who) then value else 0) in Hreg.
    unfold balance in *. simpl. case_decide; lia.
  - rewrite withdrawal_outcome. repeat case_decide; simpl; try lia.
    pose proof (escrow_for_register st who assigned
                  (mkPendingRequest sender amt Withdrawal) Hc) as Hreg.
    change (escrow_for who (mkPendingRequest sender amt Withdrawal))
      with (if decide (sender = who) then 0 else 0) in Hreg.
    unfold balance in *. simpl. case_decide; lia.
  - callback_split st requestId response err; simpl.
    + lia.
    + lia.
    + pose proof (map_total_delete_le (escrow_for who) (s_pending st) requestId
                    (escrow_for_nonneg st who Hc)).
      unfold balance in *. simpl. lia.
    + rewrite balance_write. rewrite (escrow_for_retire st who requestId Hc) by done.
      unfold escrow_for, escrow_of. subst r. rewrite H1.
      repeat case_decide; try congruence; subst; lia.
    + rewrite (escrow_for_retire st who requestId Hc) by done.
      unfold escrow_for, escrow_of. subst r. rewrite H1.
      unfold balance. simpl. repeat case_decide; try congruence; lia.
    + rewrite balance_write. rewrite (escrow_for_retire st who requestId Hc) by done.
      unfold escrow_for, escrow_of. subst r. rewrite H1.
      repeat case_decide; try congruence; subst; lia.
    + pose proof (map_total_delete_le (escrow_for who) (s_pending st) requestId
                    (escrow_for_nonneg st who Hc)).
      unfold balance in *. simpl. lia.
Qed.

Lemma run_holdings cs who : ∀ st,
  consistent st → wf_calls accepts st cs →
  balance (run accepts st cs) who
  + map_total (escrow_for who) (s_pending (run accepts st cs))
  + ether_out_to accepts who st cs
  ≤ balance st who + map_total (escrow_for who) (s_pending st)
    + ether_in_from accepts who st cs.
Proof.
  induction cs as [|c cs IH]; intros st Hc Hwf; [simpl; unfold run; simpl; lia|].
  destruct Hwf as [Hwc Hwf]. rewrite run_cons.
  pose proof (IH _ (exec_consistent accepts st c Hc Hwc) Hwf).
  pose proof (exec_holdings st c who Hc Hwc). simpl. lia.
Qed.

(** X3.  No principal gets out more than it put in: after any sequence of
    well-formed calls, the balance a principal holds in the vault plus all
    the ether the vault has transferred to it is at most the ether of its
    own committed deposits. *)
Theorem no_principal_overpaid (cs : list Call) (who : address) :
  wf_calls accepts initial cs →
  balance (run accepts initial cs) who + ether_out_to accepts who initial cs
  ≤ ether_in_from accepts who initial cs.
Proof.
  intros Hwf.
  pose proof (run_holdings cs who initial consistent_initial Hwf) as Hrun.
  pose proof (run_consistent cs initial consistent_initial Hwf) as Hc.
  pose proof (map_total_nonneg (escrow_for who) _ (escrow_for_nonneg _ who Hc)).
  assert (Hb0 : balance initial who = 0) by (unfold balance; simpl; by rewrite lookup_empty).
  assert (He0 : map_total (escrow_for who) (s_pending initial) = 0)
    by apply map_total_empty.
  lia.
Qed.

(** ** What a single call can and cannot do *)

(** X4.  The vault sends ether only from a callback, only to the requester
    of the pending request the callback names, and only that request's
    amount: a refused deposit is refunded, an approved withdrawal that the
    balance covers is paid.  A dispatch, an error callback and a callback for
    an unknown identifier send nothing. *)
Theorem payout_only_to_requester st (c : Call) (log : list Effect) (to : address)
    (value : uint256) :
  (exec accepts st c).2 = Success log →
  In (Transfer to value) log →
  ∃ requestId response,
    c = CallFulfill requestId response []
    ∧ to = requester (pending st requestId)
    ∧ value = amount (pending st requestId)
    ∧ to ≠ address_zero
    ∧ transferred log = value
    ∧ match requestType (pending st requestId) with
      | Deposit => uint256_of_response response ≠ 1
      | Withdrawal => uint256_of_response response = 1 ∧ value ≤ balance st to
      end.
Proof.
  intros Hlog Hin.
  destruct c as [sender v assigned|sender amt assigned|requestId response err].
  - rewrite deposit_outcome in Hlog. case_decide; [done|].
    injection Hlog as <-. destruct Hin as [Hin|[Hin|[]]]; done.
  - rewrite withdrawal_outcome in Hlog. repeat case_decide; try done.
    injection Hlog as <-. destruct Hin as [Hin|[Hin|[]]]; done.
  - revert Hlog. callback_split st requestId response err; simpl; intros [= <-];
      try (destruct Hin as [Hin|[]]; done).
    + destruct Hin as [Hin|[Hin|[]]]; [|done]. injection Hin as <- <-.
      subst err. exists requestId, response. subst r. rewrite H1.
      repeat split; try done. simpl. lia.
    + destruct Hin as [Hin|[Hin|[]]]; [|done]. injection Hin as <- <-.
      subst err. exists requestId, response. subst r. rewrite H1.
      repeat split; try done. simpl. lia.
Qed.

(** X5.  A balance changes only when a callback approves a request of that
    very principal: by the amount of the request, upwards for a deposit and
    downwards for a withdrawal.  Dispatches, refusals, errors and callbacks
    about other principals leave it as it is. *)
Theorem balance_moves_only_on_approval st (c : Call) (p : address) :
  balance (exec accepts st c).1 p ≠ balance st p →
  ∃ requestId response,
    c = CallFulfill requestId response []
    ∧ requester (pending st requestId) = p
    ∧ uint256_of_response response = 1
    ∧ balance (exec accepts st c).1 p
      = match requestType (pending st requestId) with
        | Deposit => balance st p + amount (pending st requestId)
        | Withdrawal => balance st p - amount (pending st requestId)
        end.
Proof.
  destruct c as [sender v assigned|sender amt assigned|requestId response err].
  - rewrite deposit_outcome. case_decide; intros Hne; by destruct Hne.
  - rewrite withdrawal_outcome. repeat case_decide; intros Hne; by destruct Hne.
  - callback_split st requestId response err; simpl; intros Hne;
      try (by destruct Hne).
    + rewrite balance_write in Hne. rewrite balance_write.
      case_decide as Hp; [|by destruct Hne].
      subst err p. exists requestId, response. subst r. by rewrite H1.
    + rewrite balance_write in Hne. rewrite balance_write.
      case_decide as Hp; [|by destruct Hne].
      subst err p. exists requestId, response. subst r. by rewrite H1.
Qed.

(** X6.  A pending entry is touched by no call about another identifier:
    dispatches that are assigned other identifiers and callbacks that name
    other identifiers, committed or reverted, leave it exactly as it is.
    Nothing but a call naming the entry's own identifier retires or
    replaces it; the contract has no expiry and no cancellation. *)
Theorem entry_untouched_by_others st (c : Call) (requestId : bytes32) :
  (subject st c).1.1 ≠ requestId →
  s_pending (exec accepts st c).1 !! requestId = s_pending st !! requestId.
Proof.
  intros Hother.
  destruct c as [sender v assigned|sender amt assigned|id response err];
    simpl in Hother.
  - rewrite deposit_outcome. case_decide; [done|]. simpl.
    by rewrite lookup_insert_ne.
  - rewrite withdrawal_outcome. repeat case_decide; try done. simpl.
    by rewrite lookup_insert_ne.
  - callback_split st id response err; simpl; try done;
      by rewrite lookup_delete_ne.
Qed.

(** ** How calls compose *)

Lemma run_nil st : run accepts st [] = st.
Proof. done. Qed.

Lemma callback_exec st requestId response err :
  exec accepts st (CallFulfill requestId response err)
  = match fulfillRequest accepts requestId response err st with
    | Ok _ st' log => (st', Success log)
    | Revert e => (st, Reverted e)
    end.
Proof. simpl. unfold transact. by rewrite receive_value_zero. Qed.

(** X7.  A withdrawal is admitted against the balance alone; withdrawals
    already pending are not set aside.  Two withdrawals that the balance
    covers one by one are both admitted, whatever their sum.  If the sum
    exceeds the balance and both are approved, the first is paid and the
    approval of the second reverts with an arithmetic panic, its request
    staying in the registry. *)
Theorem withdrawals_not_set_aside st (sender : address) (a b : uint256)
    (id1 id2 : bytes32) (response : bytes) :
  reachable accepts st →
  sender ≠ address_zero → accepts sender = true →
  0 < a ≤ balance st sender → 0 < b ≤ balance st sender →
  a + b > balance st sender →
  id1 ≠ id2 → uint256_of_response response = 1 →
  let admitted := run accepts st [CallRequestWithdrawal sender a id1;
                                  CallRequestWithdrawal sender b id2] in
  let first := exec accepts admitted (CallFulfill id1 response []) in
  let second := exec accepts first.1 (CallFulfill id2 response []) in
  s_pending admitted !! id1 = Some (mkPendingRequest sender a Withdrawal)
  ∧ s_pending admitted !! id2 = Some (mkPendingRequest sender b Withdrawal)
  ∧ first.2 = Success [Transfer sender a; Emit (WithdrawalRequestFulfilled id1 sender a)]
  ∧ second = (first.1, Reverted ArithmeticPanic)
  ∧ s_pending first.1 !! id2 = Some (mkPendingRequest sender b Withdrawal).
Proof.
  intros Hreach Hs Hacc Ha Hb Hsum Hid Hone.
  pose proof (balance_covered st sender (reachable_consistent accepts st Hreach)) as Hcov.
  set (r1 := mkPendingRequest sender a Withdrawal).
  set (r2 := mkPendingRequest sender b Withdrawal).
  set (st2 := mkVault (s_balances st) (<[id2 := r2]> (<[id1 := r1]> (s_pending st)))
                      (this_balance st)).
  assert (Hrun : run accepts st [CallRequestWithdrawal sender a id1;
                                 CallRequestWithdrawal sender b id2] = st2).
  { rewrite run_cons, withdrawal_outcome.
    rewrite decide_False by lia. rewrite decide_False by lia.
    rewrite run_cons, withdrawal_outcome.
    rewrite decide_False by lia.
    rewrite decide_False by (unfold balance in *; simpl; lia). done. }
  cbv zeta. rewrite Hrun.
  assert (H1 : s_pending st2 !! id1 = Some r1).
  { simpl. rewrite lookup_insert_ne by done. apply lookup_insert_eq. }
  assert (H2 : s_pending st2 !! id2 = Some r2) by (simpl; apply lookup_insert_eq).
  set (st3 := mkVault (<[sender := balance st sender - a]> (s_balances st))
                      (delete id1 (s_pending st2)) (this_balance st - a)).
  assert (Hfirst : exec accepts st2 (CallFulfill id1 response [])
                   = (st3, Success [Transfer sender a;
                                    Emit (WithdrawalRequestFulfilled id1 sender a)])).
  { rewrite callback_exec.
    rewrite (fulfill_withdrawal_approved accepts st2 id1 response r1
               (pending_lookup st2 id1 r1 H1)) by done.
    change (balance st2 (requester r1)) with (balance st sender).
    change (amount r1) with a. change (requester r1) with sender.
    change (this_balance st2) with (this_balance st).
    rewrite decide_True by lia. rewrite decide_True by lia. by rewrite Hacc. }
  rewrite Hfirst. simpl fst. simpl snd.
  assert (H3 : s_pending st3 !! id2 = Some r2).
  { simpl. rewrite lookup_delete_ne by done. apply lookup_insert_eq. }
  repeat split; try done.
  rewrite callback_exec.
  rewrite (fulfill_withdrawal_approved accepts st3 id2 response r2
             (pending_lookup st3 id2 r2 H3)) by done.
  change (amount r2) with b. change (requester r2) with sender.
  rewrite decide_False; [done|].
  unfold st3. rewrite balance_write_same. lia.
Qed.

(** X8.  Round trip.  From any reachable state, a deposit of [a] that is
    approved, followed by a withdrawal of [a] by the same account that is
    approved, pays exactly [a] back to that account and leaves every balance
    and the ether held by the vault as they were at the start. *)
Theorem deposit_withdraw_round_trip st (sender : address) (a : uint256)
    (id1 id2 : bytes32) (response : bytes) :
  reachable accepts st →
  sender ≠ address_zero → accepts sender = true →
  0 < a → this_balance st + a ≤ MAX_UINT256 →
  uint256_of_response response = 1 →
  let before := run accepts st [CallRequestDeposit sender a id1;
                                CallFulfill id1 response [];
                                CallRequestWithdrawal sender a id2] in
  let last := exec accepts before (CallFulfill id2 response []) in
  last.2 = Success [Transfer sender a; Emit (WithdrawalRequestFulfilled id2 sender a)]
  ∧ (∀ p, balance last.1 p = balance st p)
  ∧ this_balance last.1 = this_balance st.
Proof.
  intros Hreach Hs Hacc Ha Hmax Hone.
  pose proof (reachable_consistent accepts st Hreach) as Hc.
  pose proof (balance_covered st sender Hc) as Hcov.
  pose proof (balance_range st sender Hc) as Hbal.
  pose proof (this_balance_nonneg st Hc) as Hthis.
  set (rd := mkPendingRequest sender a Deposit).
  set (rw := mkPendingRequest sender a Withdrawal).
  set (st1 := mkVault (s_balances st) (<[id1 := rd]> (s_pending st)) (this_balance st + a)).
  set (st2 := mkVault (<[sender := balance st sender + a]> (s_balances st))
                      (delete id1 (s_pending st1)) (this_balance st + a)).
  set (st3 := mkVault (s_balances st2) (<[id2 := rw]> (s_pending st2)) (this_balance st2)).
  assert (H1 : s_pending st1 !! id1 = Some rd) by (simpl; apply lookup_insert_eq).
  assert (H3 : s_pending st3 !! id2 = Some rw) by (simpl; apply lookup_insert_eq).
  assert (Hb2 : balance st2 sender = balance st sender + a)
    by (unfold st2; apply balance_write_same).
  assert (Hrun : run accepts st [CallRequestDeposit sender a id1;
                                 CallFulfill id1 response [];
                                 CallRequestWithdrawal sender a id2] = st3).
  { rewrite run_cons, deposit_outcome. rewrite decide_False by lia.
    change (mkVault (s_balances st)
              (<[id1 := mkPendingRequest sender a Deposit]> (s_pending st))
              (this_balance st + a), _).1 with st1.
    rewrite run_cons, callback_exec.
    rewrite (fulfill_deposit_approved accepts st1 id1 response rd
               (pending_lookup st1 id1 rd H1)) by done.
    change (balance st1 (requester rd)) with (balance st sender).
    change (amount rd) with a. change (requester rd) with sender.
    rewrite decide_True by lia.
    change (mkVault (<[sender := balance st sender + a]> (s_balances st1))
              (delete id1 (s_pending st1)) (this_balance st1), _).1 with st2.
    rewrite run_cons, withdrawal_outcome.
    rewrite decide_False by lia. rewrite decide_False by lia. done. }
  cbv zeta. rewrite Hrun. rewrite callback_exec.
  rewrite (fulfill_withdrawal_approved accepts st3 id2 response rw
             (pending_lookup st3 id2 rw H3)) by done.
  change (balance st3 (requester rw)) with (balance st2 sender).
  change (amount rw) with a. change (requester rw) with sender.
  change (this_balance st3) with (this_balance st + a).
  rewrite Hb2. rewrite decide_True by lia. rewrite decide_True by lia.
  rewrite Hacc. simpl fst. simpl snd.
  repeat split; [| simpl; lia].
  intros p. unfold balance. simpl.
  destruct (decide (p = sender)) as [->|Hp].
  - rewrite lookup_insert_eq. simpl. unfold balance. lia.
  - by rewrite !lookup_insert_ne.
Qed.

(** X9.  The contract does not check that the identifier it is assigned is
    free.  A deposit dispatched under the identifier of a deposit that is
    still pending replaces that entry, and the ether of the replaced
    deposit stays in the vault without being counted in any balance or any
    pending request. *)
Theorem reassigned_identifier_strands_escrow st (requestId : bytes32)
    (old : PendingRequest) (sender : address) (value : uint256) :
  reachable accepts st →
  s_pending st !! requestId = Some old → requestType old = Deposit →
  sender ≠ address_zero → 0 < value → this_balance st + value ≤ MAX_UINT256 →
  let after := (exec accepts st (CallRequestDeposit sender value requestId)).1 in
  s_pending after !! requestId = Some (mkPendingRequest sender value Deposit)
  ∧ total_balances after + total_escrow after + amount old ≤ this_balance after
  ∧ 0 < amount old.
Proof.
  intros Hreach Hold Hty Hs Hv Hmax.
  pose proof (reachable_consistent accepts st Hreach) as Hc.
  destruct (pending_well_formed st Hc requestId old Hold) as [_ Hamt].
  pose proof (ether_covers st Hc) as Hcov.
  cbv zeta. rewrite deposit_outcome. rewrite decide_False by lia. simpl fst.
  split; [simpl; apply lookup_insert_eq|]. split; [|lia].
  unfold total_balances, total_escrow in *. simpl.
  rewrite map_total_insert.
  rewrite (map_total_delete escrow_of (s_pending st) requestId old Hold) in Hcov.
  unfold escrow_of in Hcov at 1. rewrite Hty in Hcov.
  unfold escrow_of at 1. simpl. lia.
Qed.

End VaultFlows.


(** * Further properties of the success payload *)

Section Payload.
Local Open Scope Z_scope.

Lemma byte_value_range b : 0 ≤ Z.of_N (Byte.to_N b) < 256.
Proof. pose proof (Byte.to_N_bounded b). lia. Qed.

Lemma byte_value_inj b b' : Z.of_N (Byte.to_N b) = Z.of_N (Byte.to_N b') → b = b'.
Proof.
  intros H. apply N2Z.inj in H.
  pose proof (Byte.of_to_N b) as H1. pose proof (Byte.of_to_N b') as H2.
  rewrite H in H1. congruence.
Qed.

Lemma be_value_range l : 0 ≤ be_value l < 256 ^ Z.of_nat (length l).
Proof.
  induction l as [|b l IH] using rev_ind; [by vm_compute|].
  rewrite be_value_snoc, length_app. simpl length.
  replace (Z.of_nat (length l + 1)) with (Z.of_nat (length l) + 1) by lia.
  rewrite Z.pow_add_r by lia. change (256 ^ 1) with 256.
  pose proof (byte_value_range b). lia.
Qed.

(** Byte strings of one length with one big-endian value are equal. *)
Lemma be_value_inj l l' : length l = length l' → be_value l = be_value l' → l = l'.
Proof.
  revert l'. induction l as [|b l IH] using rev_ind; intros l' Hlen Hv.
  - by destruct l'.
  - destruct l' as [|b' l' _] using rev_ind.
    + rewrite length_app in Hlen. simpl in Hlen. lia.
    + rewrite !length_app in Hlen. simpl in Hlen. rewrite !be_value_snoc in Hv.
      pose proof (byte_value_range b). pose proof (byte_value_range b').
      assert (be_value l = be_value l') by lia.
      assert (Z.of_N (Byte.to_N b) = Z.of_N (Byte.to_N b')) by lia.
      f_equal; [apply IH; [lia | done] | f_equal; by apply byte_value_inj].
Qed.

Lemma length_bytes32_of_bytes r : length (bytes32_of_bytes r) = 32%nat.
Proof.
  unfold bytes32_of_bytes. rewrite length_take, length_app, length_replicate. lia.
Qed.

(** X10.  [uint256(bytes32(response)) == 1] holds of exactly the responses
    that start with thirty-one zero bytes followed by the byte 1: a
    response shorter than 32 bytes is never an approval, and the bytes
    after the first 32 play no part. *)
Theorem approval_payload_unique (response : bytes) :
  uint256_of_response response = 1
  ↔ take 32 response = (replicate 31 Byte.x00 ++ [Byte.x01])%list.
Proof.
  set (one := (replicate 31 Byte.x00 ++ [Byte.x01])%list).
  assert (Hone : be_value one = 1) by (by vm_compute).
  assert (Hlen : length one = 32%nat) by done.
  unfold uint256_of_response. split.
  - intros Hv. assert (Hb : bytes32_of_bytes response = one).
    { apply be_value_inj; [by rewrite length_bytes32_of_bytes | by rewrite Hone]. }
    destruct (decide (32 ≤ length response)%nat) as [Hl|Hl].
    + unfold bytes32_of_bytes in Hb. by rewrite take_app_le in Hb by lia.
    + exfalso. unfold bytes32_of_bytes in Hb.
      assert (Hlast : take 32 (response ++ replicate 32 Byte.x00)%list !! 31%nat
                      = Some Byte.x00).
      { rewrite lookup_take_lt by lia. rewrite lookup_app_r by lia.
        apply lookup_replicate_2. lia. }
      rewrite Hb in Hlast. by vm_compute in Hlast.
  - intros Ht. assert (Hl : (32 ≤ length response)%nat).
    { apply (f_equal length) in Ht. rewrite length_take in Ht.
      rewrite Hlen in Ht. lia. }
    unfold bytes32_of_bytes. rewrite take_app_le by lia. by rewrite Ht.
Qed.

(** X11.  Whatever the response, the value the callback compares with 1 is
    a [uint256]. *)
Theorem decoded_in_range (response : bytes) :
  0 ≤ uint256_of_response response ≤ MAX_UINT256.
Proof.
  unfold uint256_of_response.
  pose proof (be_value_range (bytes32_of_bytes response)) as H.
  rewrite length_bytes32_of_bytes in H. unfold MAX_UINT256.
  change (256 ^ Z.of_nat 32) with (2 ^ 256) in H. lia.
Qed.

(** X12.  What the script encodes, the callback decodes: for every [n] of
    [uint256], [uint256(bytes32(Functions.encodeUint256(n)))] is [n]. *)
Theorem payload_round_trip n :
  0 ≤ n ≤ MAX_UINT256 → uint256_of_response (encodeUint256 n) = n.
Proof.
  intros Hn. unfold uint256_of_response, encodeUint256.
  rewrite bytes32_of_bytes_exact by apply length_be_bytes.
  rewrite be_value_be_bytes by lia.
  apply Z.mod_small. unfold MAX_UINT256 in Hn.
  change (256 ^ Z.of_nat 32) with (2 ^ 256). lia.
Qed.

End Payload.


(** * Further properties of the checker script *)

Section ScriptFlows.
Variable Number_of_string : string → option Z.
Variable coerced_positive : Json → Exception + bool.

Local Open Scope string_scope.

Lemma get_char_in s : ∀ i c, String.get i s = Some c → char_in c s = true.
Proof.
  induction s as [|d s IH]; intros [|i] c H; simpl in *; try done.
  - injection H as ->. by rewrite bool_decide_true.
  - rewrite (IH i c H). apply orb_true_r.
Qed.

Lemma get_in_range s : ∀ i, (i < String.length s)%nat → ∃ c, String.get i s = Some c.
Proof.
  induction s as [|d s IH]; intros [|i] Hi; simpl in *; try lia.
  - by exists d.
  - apply IH. lia.
Qed.

Lemma charAt_in_range s i :
  (i < String.length s)%nat →
  ∃ c, charAt s i = String c EmptyString ∧ char_in c s = true.
Proof.
  intros Hi. destruct (get_in_range s i Hi) as [c Hc]. exists c.
  unfold charAt. rewrite Hc. split; [done|]. by apply (get_char_in s i).
Qed.

Lemma append_cons x (a b : string) : String x a ++ b = String x (a ++ b).
Proof. reflexivity. Qed.

Lemma append_empty (a : string) : a ++ "" = a.
Proof. induction a as [|x a IH]; [done|]. by rewrite append_cons, IH. Qed.

Lemma append_assoc (a b c : string) : (a ++ b) ++ c = a ++ (b ++ c).
Proof. induction a as [|x a IH]; [done|]. by rewrite !append_cons, IH. Qed.

Lemma random_sequence_loop_step n sequence w p :
  let i := (random_index w (draws p) (String.length characters)
             `mod` String.length characters)%nat in
  random_sequence_loop (S n) sequence w p
  = random_sequence_loop n (sequence ++ charAt characters i) w (drawn 1 p).
Proof. reflexivity. Qed.

Lemma random_sequence_loop_shape n : ∀ sequence w p,
  ∃ t, random_sequence_loop n sequence w p = Returned (sequence ++ t) (drawn n p)
       ∧ String.length t = n
       ∧ all_chars (λ c, char_in c characters) t = true.
Proof.
  induction n as [|n IH]; intros sequence w p.
  - exists "". repeat split. simpl. unfold mret, Script_ret.
    rewrite append_empty. by destruct p.
  - rewrite random_sequence_loop_step. cbv zeta.
    set (i := (random_index w (draws p) (String.length characters)
                `mod` String.length characters)%nat).
    assert (Hi : (i < String.length characters)%nat).
    { apply Nat.mod_upper_bound. by vm_compute. }
    destruct (charAt_in_range characters i Hi) as (c & Hc & Hin).
    destruct (IH (sequence ++ charAt characters i) w (drawn 1 p)) as (t & Ht & Hlen & Hall).
    exists (String c t). rewrite Ht, Hc. repeat split.
    + f_equal; [by rewrite append_assoc|].
      unfold drawn. cbn [draws calls]. f_equal. lia.
    + cbn [String.length]. by rewrite Hlen.
    + cbn [all_chars]. by rewrite Hin, Hall.
Qed.

(** X13.  [generateRandomSequence] always returns: whatever the random
    source yields, the result is a string of exactly five characters, each
    one of the 62 letters and digits of [characters]; the run makes five
    draws and sends no request. *)
Theorem random_sequence_shape (w : World) (p : Progress) :
  ∃ sequence,
    generateRandomSequence w p = Returned sequence (drawn 5 p)
    ∧ String.length sequence = 5%nat
    ∧ all_chars (λ c, char_in c characters) sequence = true.
Proof.
  destruct (random_sequence_loop_shape 5 "" w p) as (t & Ht & Hlen & Hall).
  by exists t.
Qed.


Ltac requests_case := simpl; repeat split; by repeat constructor.

(** X15.  Every request a run of the script sends, whatever the arguments
    and the answers, goes to the Chainalysis API and carries
    [secrets.apiKey] as its token; a run sends at most three, the first
    with method POST and the later ones without method or body. *)
Theorem requests_authenticated (w : World) :
  let requests := calls_made (main Number_of_string coerced_positive w start) in
  Forall (λ req, token req = apiKey w ∧ targets_chainalysis req = true) requests
  ∧ (length requests ≤ 3)%nat
  ∧ match requests with
    | [] => True
    | first :: rest =>
        method first = Some "POST"
        ∧ Forall (λ req, method req = None ∧ data_out req = []) rest
    end.
Proof.
  cbv zeta. unfold main, mbind, Script_bind, secrets_apiKey.
  destruct (bool_decide (apiKey w = Some "")); [requests_case|].
  destruct (Number Number_of_string (arg w 0)) as [[|[q|q|]|q]|];
    try requests_case.
  - rewrite deposit_calls. unfold deposit_protocol.
    destruct (is_number _ 201); requests_case.
  - rewrite withdrawal_calls. unfold withdrawal_protocol.
    destruct (is_number _ 202); [|requests_case].
    destruct (prop _ "externalId") as [id|]; [|requests_case].
    cbv zeta.
    destruct (is_number _ 200); [|requests_case].
    destruct (prop _ "direct") as [direct|]; [|requests_case].
    destruct (prop direct "name"); requests_case.
Qed.

End ScriptFlows.


(** * From dispatch to settlement

    The vault and the script put together: the arguments of the oracle
    request a dispatch makes are the arguments of the script run, and what
    the run returns is the response of the callback. *)

Section EndToEnd.
Variable accepts : Z → bool.
Variable Number_of_string : string → option Z.
Variable coerced_positive : Json → Exception + bool.
Variable toHexString : Z → string.
Variable toString : Z → string.

Local Open Scope Z_scope.

Lemma returns_functional {A} (c : Completion A) a b :
  returns c a → returns c b → a = b.
Proof. intros [p ->] [q [= -> _]]. done. Qed.

Lemma returns_not_throws {A} (c : Completion A) a : returns c a → ¬ throws c.
Proof. intros [p ->] (e & q & H). discriminate. Qed.

Lemma approve_decodes : uint256_of_response (encodeUint256 1) = 1.
Proof. by vm_compute. Qed.

Lemma reject_decodes : uint256_of_response (encodeUint256 0) ≠ 1.
Proof. by vm_compute. Qed.

(** The run started for a deposit request is the deposit check of the
    sender's address. *)
Lemma main_deposit sender key service random clock p b :
  Number_of_string DEPOSIT_ACTION_ID = Some 0 →
  let w := world_of toHexString toString
             [ArgLiteral DEPOSIT_ACTION_ID; ArgHexAddress sender]
             key service random clock in
  returns (main Number_of_string coerced_positive w p) b →
  returns (checkDeposit (JStr (toHexString sender)) w p) b.
Proof.
  intros Hnum w. unfold main, mbind, Script_bind, secrets_apiKey.
  destruct (bool_decide (apiKey w = Some "")); [by intros [? ?]|].
  change (Number Number_of_string (arg w 0)) with (Number_of_string DEPOSIT_ACTION_ID).
  by rewrite Hnum.
Qed.


(** X16.  A deposit from dispatch to settlement.  The script is run on the
    arguments of the oracle request the dispatch made and what it returns
    is handed to the callback.  If the risk read reports "Low", the sender
    is credited with the value sent and the ether stays in the vault;
    otherwise the value is transferred back to a sender that takes it, and
    the callback reverts for one that does not. *)
Theorem screened_deposit st (sender : address) (value : uint256)
    (requestId : bytes32) (key : option string)
    (service : HttpRequest → HttpResponse) (random : nat → nat → nat)
    (clock : string) (request : list Arg) (b : bytes) :
  reachable accepts st →
  sender ≠ address_zero → 0 < value → this_balance st + value ≤ MAX_UINT256 →
  Number_of_string DEPOSIT_ACTION_ID = Some 0 →
  let dispatched := exec accepts st (CallRequestDeposit sender value requestId) in
  In (OracleRequest request requestId) (log_of dispatched.2) →
  let w := world_of toHexString toString request key service random clock in
  returns (main Number_of_string coerced_positive w start) b →
  let risk := service (risk_request key (JStr (toHexString sender))) in
  let settled := exec accepts dispatched.1 (CallFulfill requestId b []) in
  (reports_low_risk risk →
     settled.2 = Success [Emit (DepositRequestFulfilled requestId sender value)]
     ∧ balance settled.1 sender = balance st sender + value
     ∧ this_balance settled.1 = this_balance st + value)
  ∧ (¬ reports_low_risk risk →
     if accepts sender then
       settled.2 = Success [Transfer sender value;
                            Emit (DepositRequestCancelled requestId sender value)]
       ∧ balance settled.1 sender = balance st sender
       ∧ this_balance settled.1 = this_balance st
     else settled = (dispatched.1, Reverted TransferFailed)).
Proof.
  intros Hreach Hs Hv Hmax Hnum. cbv zeta.
  pose proof (reachable_consistent accepts st Hreach) as Hc.
  pose proof (balance_covered st sender Hc) as Hcov.
  pose proof (balance_range st sender Hc) as Hbal.
  rewrite deposit_outcome. rewrite decide_False by lia. cbn [fst snd log_of].
  intros [[= <-]|[Hin|[]]]; [|discriminate Hin].
  intros Hret. apply main_deposit in Hret; [|done].
  set (w := world_of toHexString toString
              [ArgLiteral DEPOSIT_ACTION_ID; ArgHexAddress sender]
              key service random clock) in *.
  set (address := JStr (toHexString sender)) in *.
  pose proof (deposit_verdict address w start) as (Hiff & Hcases & Hthrows).
  change (http w) with service in Hiff, Hthrows.
  change (apiKey w) with key in Hiff, Hthrows.
  assert (Hok : is_number (status (service (register_request key address))) 201 = true
                ∧ is_number (status (service (risk_request key address))) 200 = true).
  { destruct (is_number (status (service (register_request key address))) 201);
      [|destruct (returns_not_throws _ _ Hret); apply Hthrows; by left].
    destruct (is_number (status (service (risk_request key address))) 200);
      [done|destruct (returns_not_throws _ _ Hret); apply Hthrows; by right]. }
  destruct Hok as [Hreg Hrisk].
  set (rd := mkPendingRequest sender value Deposit).
  set (st1 := mkVault (s_balances st) (<[requestId := rd]> (s_pending st))
                (this_balance st + value)).
  assert (H1 : pending st1 requestId = rd).
  { apply pending_lookup. simpl. apply lookup_insert_eq. }
  rewrite callback_exec. split.
  - intros Hlow.
    assert (b = encodeUint256 1) as ->.
    { apply (returns_functional _ _ _ Hret). by apply Hiff. }
    rewrite (fulfill_deposit_approved accepts st1 requestId _ rd H1 Hs eq_refl
               approve_decodes).
    change (balance st1 (requester rd)) with (balance st sender).
    change (amount rd) with value. change (requester rd) with sender.
    rewrite decide_True by lia. simpl fst. simpl snd.
    split; [done|]. split; [apply balance_write_same | done].
  - intros Hhigh.
    assert (b = encodeUint256 0) as ->.
    { destruct (Hcases b Hret) as [-> | ->]; [|done].
      destruct Hhigh. by apply Hiff. }
    rewrite (fulfill_deposit_rejected accepts st1 requestId _ rd H1 Hs eq_refl
               reject_decodes).
    change (amount rd) with value. change (requester rd) with sender.
    change (this_balance st1) with (this_balance st + value).
    pose proof (this_balance_nonneg st Hc).
    rewrite decide_True by lia.
    destruct (accepts sender); [|done]. simpl fst. simpl snd.
    split; [done|]. split; [done | simpl; lia].
Qed.


End EndToEnd.


(** * Concrete runs of the further properties *)


Lemma vault_solvent_witness :
  (total_balances overdrawn + total_escrow overdrawn ≤ this_balance overdrawn
   ∧ 0 ≤ total_balances overdrawn ∧ 0 ≤ total_escrow overdrawn
   ∧ ∀ p, balance overdrawn p ≤ this_balance overdrawn)%Z.
Proof.
  apply (vault_solvent everyone_accepts). reached.
Defined.

Lemma no_principal_overpaid_witness :
  (balance (run everyone_accepts initial double_withdrawal) alice
   + ether_out_to everyone_accepts alice initial double_withdrawal
   ≤ ether_in_from everyone_accepts alice initial double_withdrawal)%Z.
Proof.
  apply (no_principal_overpaid everyone_accepts). by_evaluation.
Defined.

Lemma payout_only_to_requester_witness :
  ∃ requestId response,
    CallFulfill 8 approve [] = CallFulfill requestId response []
    ∧ alice = requester (pending awaiting_withdrawal requestId)
    ∧ 600%Z = amount (pending awaiting_withdrawal requestId)
    ∧ alice ≠ address_zero
    ∧ transferred [Transfer alice 600; Emit (WithdrawalRequestFulfilled 8 alice 600)]
      = 600%Z
    ∧ match requestType (pending awaiting_withdrawal requestId) with
      | Deposit => uint256_of_response response ≠ 1%Z
      | Withdrawal =>
          uint256_of_response response = 1%Z
          ∧ (600 ≤ balance awaiting_withdrawal alice)%Z
      end.
Proof.
  apply (payout_only_to_requester everyone_accepts awaiting_withdrawal
           (CallFulfill 8 approve [])).
  - by vm_compute.
  - by left.
Defined.

Lemma balance_moves_only_on_approval_witness :
  ∃ requestId response,
    CallFulfill 7 approve [] = CallFulfill requestId response []
    ∧ requester (pending awaiting_deposit requestId) = alice
    ∧ uint256_of_response response = 1%Z
    ∧ balance (exec everyone_accepts awaiting_deposit (CallFulfill 7 approve [])).1 alice
      = match requestType (pending awaiting_deposit requestId) with
        | Deposit =>
            (balance awaiting_deposit alice + amount (pending awaiting_deposit requestId))%Z
        | Withdrawal =>
            (balance awaiting_deposit alice - amount (pending awaiting_deposit requestId))%Z
        end.
Proof.
  apply (balance_moves_only_on_approval everyone_accepts awaiting_deposit
           (CallFulfill 7 approve []) alice).
  by vm_compute.
Defined.

Lemma entry_untouched_by_others_witness :
  s_pending (exec everyone_accepts overdrawn (CallFulfill 8 approve [])).1 !! 9%Z
  = s_pending overdrawn !! 9%Z.
Proof.
  apply (entry_untouched_by_others everyone_accepts overdrawn
           (CallFulfill 8 approve []) 9%Z).
  by vm_compute.
Defined.

Lemma withdrawals_not_set_aside_witness :
  let funded := run everyone_accepts initial deposit_approved in
  let admitted := run everyone_accepts funded
                    [CallRequestWithdrawal alice 600 8;
                     CallRequestWithdrawal alice 600 9] in
  let first := exec everyone_accepts admitted (CallFulfill 8 approve []) in
  let second := exec everyone_accepts first.1 (CallFulfill 9 approve []) in
  s_pending admitted !! 8%Z = Some (mkPendingRequest alice 600 Withdrawal)
  ∧ s_pending admitted !! 9%Z = Some (mkPendingRequest alice 600 Withdrawal)
  ∧ first.2 = Success [Transfer alice 600; Emit (WithdrawalRequestFulfilled 8 alice 600)]
  ∧ second = (first.1, Reverted ArithmeticPanic)
  ∧ s_pending first.1 !! 9%Z = Some (mkPendingRequest alice 600 Withdrawal).
Proof.
  apply (withdrawals_not_set_aside everyone_accepts
           (run everyone_accepts initial deposit_approved) alice 600 600 8 9 approve).
  - reached.
  - by vm_compute.
  - reflexivity.
  - by_evaluation.
  - by_evaluation.
  - by vm_compute.
  - by vm_compute.
  - by vm_compute.
Defined.

Lemma deposit_withdraw_round_trip_witness :
  let before := run everyone_accepts initial
                  [CallRequestDeposit alice 1000 7; CallFulfill 7 approve [];
                   CallRequestWithdrawal alice 1000 8] in
  let last := exec everyone_accepts before (CallFulfill 8 approve []) in
  last.2 = Success [Transfer alice 1000; Emit (WithdrawalRequestFulfilled 8 alice 1000)]
  ∧ (∀ p, balance last.1 p = balance initial p)
  ∧ this_balance last.1 = this_balance initial.
Proof.
  apply (deposit_withdraw_round_trip everyone_accepts initial alice 1000 7 8 approve).
  - constructor.
  - by vm_compute.
  - reflexivity.
  - by vm_compute.
  - by_evaluation.
  - by vm_compute.
Defined.

Lemma reassigned_identifier_strands_escrow_witness :
  let after := (exec everyone_accepts awaiting_deposit (CallRequestDeposit 6 500 7)).1 in
  s_pending after !! 7%Z = Some (mkPendingRequest 6 500 Deposit)
  ∧ (total_balances after + total_escrow after
     + amount (mkPendingRequest alice 1000 Deposit) ≤ this_balance after)%Z
  ∧ (0 < amount (mkPendingRequest alice 1000 Deposit))%Z.
Proof.
  apply (reassigned_identifier_strands_escrow everyone_accepts awaiting_deposit 7
           (mkPendingRequest alice 1000 Deposit) 6 500).
  - reached.
  - by vm_compute.
  - reflexivity.
  - by vm_compute.
  - by vm_compute.
  - by_evaluation.
Defined.

Lemma approval_payload_unique_witness :
  uint256_of_response (approve ++ failure)%list = 1%Z.
Proof.
  apply approval_payload_unique. by vm_compute.
Defined.

Lemma payload_round_trip_witness :
  uint256_of_response (encodeUint256 1000) = 1000%Z.
Proof.
  apply payload_round_trip. by_evaluation.
Defined.


Lemma screened_deposit_witness :
  let dispatched := exec everyone_accepts initial (CallRequestDeposit alice 1000 7) in
  let settled := exec everyone_accepts dispatched.1 (CallFulfill 7 approve []) in
  settled.2 = Success [Emit (DepositRequestFulfilled 7 alice 1000)]
  ∧ balance settled.1 alice = (balance initial alice + 1000)%Z
  ∧ this_balance settled.1 = (this_balance initial + 1000)%Z.
Proof.
  assert (Hrun : returns
            (main sample_Number sample_positive
               (world_of sample_toHexString sample_toString
                  [ArgLiteral DEPOSIT_ACTION_ID; ArgHexAddress alice]
                  (Some "key") lenient_service sample_random sample_clock) start)
            approve).
  { eexists. by vm_compute. }
  pose proof (screened_deposit everyone_accepts sample_Number sample_positive
                sample_toHexString sample_toString initial alice 1000 7 (Some "key")
                lenient_service sample_random sample_clock
                [ArgLiteral DEPOSIT_ACTION_ID; ArgHexAddress alice] approve
                (reachable_initial everyone_accepts)) as H.
  cbv zeta in H. cbv zeta. apply H; try (by vm_compute); try exact Hrun.
  by left.
Defined.

